(** * image-processor: the fluent [Processor] of package [img] and the SVG
      loader, embedded shallowly and checked against the specification.

    The development follows the Go sources:
    - [cmd/example/main.go] (package [img]): [Processor], its transforms
      ([Resize], [Grayscale], [Watermark], [Rotate180], [Rotate90],
      [FlipHorizontal], [FlipVertical], [Brightness]), its setters
      ([SetQuality], [ToPNG] ...) and its terminal operations ([Save],
      [ToBytes], [Encode]);
    - [pkg/img/loader.go]: [decodeSVG].

    What the sources import from the Go standard library and from
    golang.org/x/image is modelled by its documented behaviour
    ([image.Rectangle], [image.RGBA], [image.Gray], the colour models,
    [strings], [filepath.Ext], [os.Create]); resampling, glyph drawing, SVG
    parsing and the five codecs are fields of the class [ExtLibs], and so
    is what the language leaves to the platform: the result of an
    unrepresentable conversion, and whether a product and a sum of
    [float64] are fused. *)

From Stdlib Require Import ZArith Lia String Ascii.
From Stdlib Require Import PrimFloat FloatOps SpecFloat Uint63.
From stdpp Require Import base list gmap strings.

Local Open Scope Z_scope.

(* ===================================================================== *)
(** * Part I. The model                                                   *)
(* ===================================================================== *)

(** ** Go's [int] (64 bits) *)

Definition max_int : Z := 2 ^ 63 - 1.
Definition min_int : Z := - 2 ^ 63.

(** two's complement wrap-around of an exact result *)
Definition wrap_int (z : Z) : Z := (z + 2 ^ 63) mod 2 ^ 64 - 2 ^ 63.

Definition int_sub (a b : Z) : Z := wrap_int (a - b).
Definition int_mul (a b : Z) : Z := wrap_int (a * b).


(** [bits.Mul64(x, y)]: the high and the low word of the 128-bit product *)
Definition Mul64 (x y : Z) : Z * Z := ((x * y) / 2 ^ 64, (x * y) mod 2 ^ 64).

(** the runtime's [maxAlloc] on the 64-bit platforms (48 address bits):
    [make] panics when asked for more bytes.  A request below it that the
    machine cannot serve ends the program with a fatal error, which is not
    represented: the memory is taken to be there. *)
Definition maxAlloc : Z := 2 ^ 48.

(** [uint8(v)] of an unsigned value *)
Definition uint8 (v : Z) : Z := Z.land v 255.

(** ** Results of a call: a value, an [error], or a run-time panic *)

Inductive error : Type :=
| ErrCreateFile (cause : string)        (* "failed to create file: %w" *)
| ErrNoFormat                           (* "no format specified for conversion" *)
| ErrUnsupportedFormat (format : string) (* "unsupported format: %s" *)
| ErrReadSVG (cause : string)           (* "failed to read SVG: %w" *)
| ErrExternal (cause : string).         (* an error returned by a codec *)

Definition Error (e : error) : string :=
  match e with
  | ErrCreateFile c => "failed to create file: " ++ c
  | ErrNoFormat => "no format specified for conversion"
  | ErrUnsupportedFormat f => "unsupported format: " ++ f
  | ErrReadSVG c => "failed to read SVG: " ++ c
  | ErrExternal c => c
  end%string.

Inductive panic : Type :=
| NilDereference       (* method call on a nil interface value *)
| HugeDimensions.      (* image.NewRGBA / NewGray: no pixel buffer for these
                          dimensions, negative or too large for
                          [pixelBufferLength] or for [make] *)

Inductive outcome (A : Type) : Type :=
| Ok (a : A)
| Err (e : error)
| Panic (p : panic).

Arguments Ok {A} a.
Arguments Err {A} e.
Arguments Panic {A} p.

Definition obind {A B : Type} (m : outcome A) (f : A -> outcome B) : outcome B :=
  match m with
  | Ok a => f a
  | Err e => Err e
  | Panic p => Panic p
  end.

Notation "x <~ m ;; k" := (obind m (fun x => k))
  (at level 100, m at next level, right associativity).

(** [for i := lo; i < hi; i++ { s = body i s }] *)
Definition for_range {S : Type} (lo hi : Z) (body : Z -> S -> S) (s : S) : S :=
  foldl (fun acc i => body i acc) s (seqZ lo (hi - lo)).

(** ** Package [image/color] *)

Module color.

(** A [color.Color] is an interface with the single method [RGBA()], which
    returns four alpha-premultiplied [uint32] in [0, 0xffff]; a colour is
    identified here with what that method returns. *)
Record Color : Type := mkColor { cR : Z; cG : Z; cB : Z; cA : Z }.

(** [color.RGBA]: 8 bits per channel, alpha-premultiplied *)
Record RGBA : Type := mkRGBA { R : Z; G : Z; B : Z; A : Z }.

(** [func (c RGBA) RGBA() (r, g, b, a uint32)]: [r |= r << 8] *)
Definition RGBA_RGBA (c : RGBA) : Color :=
  mkColor (Z.lor (R c) (Z.shiftl (R c) 8)) (Z.lor (G c) (Z.shiftl (G c) 8))
          (Z.lor (B c) (Z.shiftl (B c) 8)) (Z.lor (A c) (Z.shiftl (A c) 8)).

(** [RGBAModel.Convert]: a [color.RGBA] is returned as it is, any other
    colour as [RGBA{uint8(r >> 8), ...}]; both agree with the second form on
    what [RGBA()] returns for a [color.RGBA] with 8-bit fields. *)
Definition RGBAModel (c : Color) : RGBA :=
  mkRGBA (uint8 (Z.shiftr (cR c) 8)) (uint8 (Z.shiftr (cG c) 8))
         (uint8 (Z.shiftr (cB c) 8)) (uint8 (Z.shiftr (cA c) 8)).

(** [color.Gray] and [func (c Gray) RGBA()]: [y |= y << 8], opaque *)
Definition Gray_RGBA (y : Z) : Color :=
  let y16 := Z.lor y (Z.shiftl y 8) in mkColor y16 y16 y16 65535.

(** [GrayModel.Convert]: the luminance weights of the library, on the
    16-bit channels; the intermediate sum fits a [uint32]. *)
Definition GrayModel (c : Color) : Z :=
  uint8 (Z.shiftr (19595 * cR c + 38470 * cG c + 7471 * cB c + Z.shiftl 1 15) 24).

End color.

(** ** Package [image] *)

Module image.

Record Point : Type := mkPoint { X : Z; Y : Z }.
Record Rectangle : Type := mkRectangle { Min : Point; Max : Point }.

(** [image.Rect(x0, y0, x1, y1)] swaps the coordinates into order *)
Definition Rect (x0 y0 x1 y1 : Z) : Rectangle :=
  let (x0, x1) := if x1 <? x0 then (x1, x0) else (x0, x1) in
  let (y0, y1) := if y1 <? y0 then (y1, y0) else (y0, y1) in
  mkRectangle (mkPoint x0 y0) (mkPoint x1 y1).

Definition Dx (r : Rectangle) : Z := int_sub (X (Max r)) (X (Min r)).
Definition Dy (r : Rectangle) : Z := int_sub (Y (Max r)) (Y (Min r)).

(** [Point{x, y}.In(r)] *)
Definition In (x y : Z) (r : Rectangle) : bool :=
  (X (Min r) <=? x) && (x <? X (Max r)) && (Y (Min r) <=? y) && (y <? Y (Max r)).

(** The interface [image.Image], as the two methods the package calls. *)
Record Image : Type := mkImage { Bounds : Rectangle; At : Z -> Z -> color.Color }.

(** [mul3NonNeg(x, y, z)]: the product, or [-1] when an argument is
    negative or the computation overflows: the high word of [x * y], then
    that of the product with [z], must be zero, and the low word must be an
    [int] *)
Definition mul3NonNeg (x y z : Z) : Z :=
  if (x <? 0) || (y <? 0) || (z <? 0) then -1
  else
    let (hi, lo) := Mul64 x y in
    if negb (hi =? 0) then -1
    else
      let (hi, lo) := Mul64 lo z in
      if negb (hi =? 0) then -1
      else
        let a := wrap_int lo in
        if (a <? 0) || negb (a mod 2 ^ 64 =? lo) then -1 else a.

(** [pixelBufferLength]: panics on negative or overflowing dimensions *)
Definition pixelBufferLength (bytesPerPixel : Z) (r : Rectangle) : outcome Z :=
  let totalLength := mul3NonNeg bytesPerPixel (Dx r) (Dy r) in
  if totalLength <? 0 then Panic HugeDimensions else Ok totalLength.

(** [make([]uint8, n)] for a length that is not negative: zeroed bytes, and
    a panic above the allocation limit of the runtime *)
Definition make_uint8 (n : Z) : outcome (list Z) :=
  if maxAlloc <? n then Panic HugeDimensions else Ok (replicate (Z.to_nat n) 0).

(** [image.RGBA]: [Pix] holds the samples, four bytes a pixel, row by row *)
Record RGBA : Type := mkRGBA { RGBA_Pix : list Z; RGBA_Stride : Z; RGBA_Rect : Rectangle }.

(** the length is computed, and may panic, before [make] is entered; the
    stride is an [int] product *)
Definition NewRGBA (r : Rectangle) : outcome RGBA :=
  n <~ pixelBufferLength 4 r ;;
  Pix <~ make_uint8 n ;;
  Ok (mkRGBA Pix (int_mul 4 (Dx r)) r).

Definition RGBA_PixOffset (p : RGBA) (x y : Z) : Z :=
  (y - Y (Min (RGBA_Rect p))) * RGBA_Stride p + (x - X (Min (RGBA_Rect p))) * 4.

(** [Pix[i]]; the buffers built by [NewRGBA] are never read out of range *)
Definition pix_get (pix : list Z) (i : Z) : Z := default 0 (pix !! Z.to_nat i).

Definition RGBA_RGBAAt (p : RGBA) (x y : Z) : color.RGBA :=
  if In x y (RGBA_Rect p) then
    let i := RGBA_PixOffset p x y in
    color.mkRGBA (pix_get (RGBA_Pix p) i) (pix_get (RGBA_Pix p) (i + 1))
                 (pix_get (RGBA_Pix p) (i + 2)) (pix_get (RGBA_Pix p) (i + 3))
  else color.mkRGBA 0 0 0 0.

Definition RGBA_At (p : RGBA) (x y : Z) : color.Color := color.RGBA_RGBA (RGBA_RGBAAt p x y).

(** [func (p *RGBA) Set(x, y int, c color.Color)]: ignored out of bounds *)
Definition RGBA_Set (p : RGBA) (x y : Z) (c : color.Color) : RGBA :=
  if In x y (RGBA_Rect p) then
    let i := Z.to_nat (RGBA_PixOffset p x y) in
    let c1 := color.RGBAModel c in
    mkRGBA (<[(i + 3)%nat := color.A c1]> (<[(i + 2)%nat := color.B c1]>
             (<[(i + 1)%nat := color.G c1]> (<[i := color.R c1]> (RGBA_Pix p)))))
           (RGBA_Stride p) (RGBA_Rect p)
  else p.

(** an [*image.RGBA] seen through the interface *)
Definition RGBA_Image (p : RGBA) : Image := mkImage (RGBA_Rect p) (RGBA_At p).

(** [image.Gray]: one byte a pixel *)
Record Gray : Type := mkGray { Gray_Pix : list Z; Gray_Stride : Z; Gray_Rect : Rectangle }.

Definition NewGray (r : Rectangle) : outcome Gray :=
  n <~ pixelBufferLength 1 r ;;
  Pix <~ make_uint8 n ;;
  Ok (mkGray Pix (int_mul 1 (Dx r)) r).

Definition Gray_PixOffset (p : Gray) (x y : Z) : Z :=
  (y - Y (Min (Gray_Rect p))) * Gray_Stride p + (x - X (Min (Gray_Rect p))) * 1.

Definition Gray_At (p : Gray) (x y : Z) : color.Color :=
  if In x y (Gray_Rect p) then color.Gray_RGBA (pix_get (Gray_Pix p) (Gray_PixOffset p x y))
  else color.Gray_RGBA 0.

Definition Gray_Set (p : Gray) (x y : Z) (c : color.Color) : Gray :=
  if In x y (Gray_Rect p) then
    mkGray (<[Z.to_nat (Gray_PixOffset p x y) := color.GrayModel c]> (Gray_Pix p))
           (Gray_Stride p) (Gray_Rect p)
  else p.

Definition Gray_Image (p : Gray) : Image := mkImage (Gray_Rect p) (Gray_At p).

End image.

(** ** [float64] *)

(** [float64(i)] for an [int]; exact below 2^53, and the package converts
    bytes and percentages only *)
Definition float64_of_int (z : Z) : float :=
  if z <? 0 then PrimFloat.opp (PrimFloat.of_uint63 (Uint63.of_Z (- z)))
  else PrimFloat.of_uint63 (Uint63.of_Z z).

(** the integral part of a finite [float64] (rounding toward zero) *)
Definition float64_trunc (f : float) : option Z :=
  match Prim2SF f with
  | S754_zero _ => Some 0
  | S754_finite s m e =>
      let mag := if 0 <=? e then Z.shiftl (Z.pos m) e else Z.shiftr (Z.pos m) (- e) in
      Some (if s then - mag else mag)
  | S754_infinity _ => None
  | S754_nan => None
  end.

(** a finite [float64] as the exact number [m * 2 ^ e] *)
Definition float64_exact (f : float) : option (Z * Z) :=
  match Prim2SF f with
  | S754_zero _ => Some (0, 0)
  | S754_finite s m e => Some (if s then Z.neg m else Z.pos m, e)
  | S754_infinity _ => None
  | S754_nan => None
  end.

(** [x * y + z] as a fused multiply-add computes it: the exact product and
    sum, rounded once (to nearest, ties to even).  The operands the package
    passes are finite; on others the two operations are left separate. *)
Definition float64_fma (x y z : float) : float :=
  match float64_exact x, float64_exact y, float64_exact z with
  | Some (mx, ex), Some (my, ey), Some (mz, ez) =>
      let e := Z.min (ex + ey) ez in
      let m := mx * my * 2 ^ (ex + ey - e) + mz * 2 ^ (ez - e) in
      SF2Prim (binary_normalize 53 1024 m e false)
  | _, _, _ => PrimFloat.add (PrimFloat.mul x y) z
  end.

(** ** Packages [strings] and [path/filepath] *)

Definition is_ascii (c : ascii) : bool := (N_of_ascii c <? 128)%N.

Definition lower_ascii (c : ascii) : ascii :=
  if ((65 <=? N_of_ascii c) && (N_of_ascii c <=? 90))%N
  then ascii_of_N (N_of_ascii c + 32) else c.

Fixpoint string_forall (f : ascii -> bool) (s : string) : bool :=
  match s with
  | EmptyString => true
  | String c s' => f c && string_forall f s'
  end.

Fixpoint string_map (f : ascii -> ascii) (s : string) : string :=
  match s with
  | EmptyString => EmptyString
  | String c s' => String (f c) (string_map f s')
  end.

(** [strings.TrimPrefix] *)
Definition TrimPrefix (s prefix : string) : string :=
  if String.prefix prefix s
  then substring (String.length prefix) (String.length s - String.length prefix) s
  else s.

(** [filepath.Ext]: scan from the end, stopping at a path separator *)
Fixpoint Ext_scan (rev_path suffix : list ascii) : list ascii :=
  match rev_path with
  | [] => []
  | c :: rest =>
      if Ascii.eqb c "/" then []
      else if Ascii.eqb c "." then c :: suffix
      else Ext_scan rest (c :: suffix)
  end.

Definition Ext (path : string) : string :=
  string_of_list_ascii (Ext_scan (rev (list_ascii_of_string path)) []).

(** ** The file system under [os.Create] *)

Inductive node : Type :=
| File (content : list Z)
| Dir.

Abbreviation FS := (gmap string node).

(** a path cut at its last separator: the text before it, if there is
    one, and the last element *)
Fixpoint split_path (path : string) : option string * string :=
  match path with
  | EmptyString => (None, EmptyString)
  | String c rest =>
      match split_path rest with
      | (Some dir, name) => (Some (String c dir), name)
      | (None, name) =>
          if Ascii.eqb c "/" then (Some EmptyString, name) else (None, String c name)
      end
  end.

(** the directory a path is looked up in: the working directory for a bare
    name and the root for [/name], which are always there, else the entry
    under the text before the last separator.  Entries are named by their
    paths as written. *)
Definition parent_node (fs : FS) (dir : option string) : option node :=
  match dir with
  | None => Some Dir
  | Some d => if (d =? "")%string then Some Dir else fs !! d
  end.

(** [os.Create(path)]: creates the file or truncates it.  It fails when the
    directory of the path is missing or is a regular file, when the path is
    empty or ends in a separator, and when it names a directory; a refused
    permission and the like are not represented. *)
Definition os_Create (fs : FS) (path : string) : string + FS :=
  let (dir, name) := split_path path in
  match parent_node fs dir with
  | None => inl ("open " ++ path ++ ": no such file or directory")%string
  | Some (File _) => inl ("open " ++ path ++ ": not a directory")%string
  | Some Dir =>
      if (path =? "")%string then
        inl ("open " ++ path ++ ": no such file or directory")%string
      else if (name =? "")%string then
        inl ("open " ++ path ++ ": is a directory")%string
      else
        match fs !! path with
        | Some Dir => inl ("open " ++ path ++ ": is a directory")%string
        | _ => inr (<[path := File []]> fs)
        end
  end.

(** ** What the package imports and this development does not define,
       and what Go leaves to the platform *)

Inductive CompressionLevel : Type :=
| DefaultCompression | NoCompression | BestSpeed | BestCompression.

(** the codec call an [Encode] ends in, with its options *)
Inductive CodecCall : Type :=
| jpeg_Encode (quality : Z)
| png_Encode (level : CompressionLevel)
| gif_Encode
| bmp_Encode
| tiff_Encode.

(** the [ViewBox] of an [oksvg.SvgIcon], as the parser leaves it: the zero
    value when it found no size in the document *)
Record ViewBox : Type := mkViewBox { VX : float; VY : float; VW : float; VH : float }.
Record SvgIcon : Type := mkSvgIcon { icon_ViewBox : ViewBox; icon_paths : list Z }.

Class ExtLibs : Type := {
  (** [strings.Map(unicode.ToLower, s)], taken by [strings.ToLower] on a
      string with a byte above 0x7f *)
  unicode_ToLower : string -> string;
  (** [xdraw.CatmullRom.Scale(dst, dr, src, sr, xdraw.Over, nil)]: the new
      samples of [dst] *)
  CatmullRom_Scale : image.RGBA -> image.Rectangle -> image.Image -> image.Rectangle -> list Z;
  (** [draw.Draw(dst, r, src, sp, draw.Src)]: the new samples of [dst] *)
  draw_Draw : image.RGBA -> image.Rectangle -> image.Image -> image.Point -> list Z;
  (** [(&font.Drawer{Dst, Src: image.NewUniform(col), Face7x13, Dot}).DrawString(text)] *)
  Drawer_DrawString : image.RGBA -> color.RGBA -> Z * Z -> string -> list Z;
  (** a codec run on the current image: the bytes it writes to the sink and
      how it ends *)
  codec_Encode : CodecCall -> option image.Image -> list Z * outcome unit;
  (** [oksvg.ReadIconStream] *)
  oksvg_ReadIconStream : list Z -> string + SvgIcon;
  (** [icon.Draw(rasterx.NewDasher(w, h, rasterx.NewScannerGV(w, h, img, img.Bounds())), 1.0)]:
      the new samples of [img] *)
  icon_Draw : SvgIcon -> Z -> Z -> image.RGBA -> list Z;
  (** [int(f)] where [f] has no [int] value: left to the platform by Go *)
  float64_to_int_unrepresentable : float -> Z;
  (** whether the compiler fuses [x*y + z] into one instruction with a
      single rounding, as the language allows it to and as it does where the
      processor has one (arm64, ppc64, s390x, riscv64; not amd64) *)
  float64_fused : bool
}.

Definition RGBA_with_Pix (m : image.RGBA) (pix : list Z) : image.RGBA :=
  image.mkRGBA pix (image.RGBA_Stride m) (image.RGBA_Rect m).

(** [fixed.I(i)]: [Int26_6(i << 6)], an [int32] *)
Definition fixed_I (i : Z) : Z := (i * 64 + 2 ^ 31) mod 2 ^ 32 - 2 ^ 31.

(** ** Package [img]: the [Processor] ([cmd/example/main.go]) *)

(** [Img] is an interface value: [None] is [nil].  Every method has a
    pointer receiver, mutates it and returns it; a method is modelled as the
    new state of that one object, and a panic leaves the state as it was. *)
Record Processor : Type := mkProcessor {
  Img : option image.Image;
  Quality : Z;
  TargetFormat : string
}.

Definition NewProcessor (img : option image.Image) : Processor :=
  mkProcessor img 90 "".

(** [p.Img = dst] *)
Definition set_Img (p : Processor) (img : image.Image) : Processor :=
  mkProcessor (Some img) (Quality p) (TargetFormat p).

(** a method call [p.Img.M()] panics on the nil interface *)
Definition Img_deref (p : Processor) : outcome image.Image :=
  match Img p with
  | Some img => Ok img
  | None => Panic NilDereference
  end.

Section Img.

Context `{libs : ExtLibs}.

(** [strings.ToLower]: the ASCII path of the library, else the Unicode map *)
Definition ToLower (s : string) : string :=
  if string_forall is_ascii s then string_map lower_ascii s else unicode_ToLower s.

(** [int(f)] for a [float64] *)
Definition float64_to_int (f : float) : Z :=
  match float64_trunc f with
  | Some z => if (min_int <=? z) && (z <=? max_int) then z
              else float64_to_int_unrepresentable f
  | None => float64_to_int_unrepresentable f
  end.

Definition Resize (width height : Z) (p : Processor) : outcome Processor :=
  dst <~ image.NewRGBA (image.Rect 0 0 width height) ;;
  src <~ Img_deref p ;;
  let dst := RGBA_with_Pix dst
               (CatmullRom_Scale dst (image.RGBA_Rect dst) src (image.Bounds src)) in
  Ok (set_Img p (image.RGBA_Image dst)).

Definition Grayscale (p : Processor) : outcome Processor :=
  src <~ Img_deref p ;;
  let bounds := image.Bounds src in
  dst <~ image.NewGray bounds ;;
  let dst :=
    for_range (image.Y (image.Min bounds)) (image.Y (image.Max bounds)) (fun y =>
      for_range (image.X (image.Min bounds)) (image.X (image.Max bounds)) (fun x dst =>
        image.Gray_Set dst x y (image.At src x y))) dst in
  Ok (set_Img p (image.Gray_Image dst)).

Definition Watermark (text : string) (p : Processor) : outcome Processor :=
  src <~ Img_deref p ;;
  let bounds := image.Bounds src in
  m <~ image.NewRGBA bounds ;;
  let m := RGBA_with_Pix m (draw_Draw m bounds src (image.Min bounds)) in
  let col := color.mkRGBA 255 255 255 128 in
  let point :=
    (fixed_I (int_sub (int_sub (image.X (image.Max bounds))
                               (int_mul (Z.of_nat (String.length text)) 7)) 10),
     fixed_I (int_sub (image.Y (image.Max bounds)) 10)) in
  let m := RGBA_with_Pix m (Drawer_DrawString m col point text) in
  Ok (set_Img p (image.RGBA_Image m)).

Definition SetQuality (quality : Z) (p : Processor) : Processor :=
  let quality := if quality <? 1 then 1 else quality in
  let quality := if 100 <? quality then 100 else quality in
  mkProcessor (Img p) quality (TargetFormat p).

Definition Rotate180 (p : Processor) : outcome Processor :=
  src <~ Img_deref p ;;
  let bounds := image.Bounds src in
  dst <~ image.NewRGBA bounds ;;
  let dst :=
    for_range (image.Y (image.Min bounds)) (image.Y (image.Max bounds)) (fun y =>
      for_range (image.X (image.Min bounds)) (image.X (image.Max bounds)) (fun x dst =>
        image.RGBA_Set dst
          (int_sub (int_sub (image.X (image.Max bounds)) 1) x)
          (int_sub (int_sub (image.Y (image.Max bounds)) 1) y)
          (image.At src x y))) dst in
  Ok (set_Img p (image.RGBA_Image dst)).

Definition Rotate90 (p : Processor) : outcome Processor :=
  src <~ Img_deref p ;;
  let bounds := image.Bounds src in
  let newBounds := image.Rect 0 0 (image.Dy bounds) (image.Dx bounds) in
  dst <~ image.NewRGBA newBounds ;;
  let dst :=
    for_range (image.Y (image.Min bounds)) (image.Y (image.Max bounds)) (fun y =>
      for_range (image.X (image.Min bounds)) (image.X (image.Max bounds)) (fun x dst =>
        image.RGBA_Set dst
          (int_sub (int_sub (image.Y (image.Max bounds)) 1) y)
          x
          (image.At src x y))) dst in
  Ok (set_Img p (image.RGBA_Image dst)).

Definition FlipHorizontal (p : Processor) : outcome Processor :=
  src <~ Img_deref p ;;
  let bounds := image.Bounds src in
  dst <~ image.NewRGBA bounds ;;
  let dst :=
    for_range (image.Y (image.Min bounds)) (image.Y (image.Max bounds)) (fun y =>
      for_range (image.X (image.Min bounds)) (image.X (image.Max bounds)) (fun x dst =>
        image.RGBA_Set dst
          (int_sub (int_sub (image.X (image.Max bounds)) 1) x)
          y
          (image.At src x y))) dst in
  Ok (set_Img p (image.RGBA_Image dst)).

Definition FlipVertical (p : Processor) : outcome Processor :=
  src <~ Img_deref p ;;
  let bounds := image.Bounds src in
  dst <~ image.NewRGBA bounds ;;
  let dst :=
    for_range (image.Y (image.Min bounds)) (image.Y (image.Max bounds)) (fun y =>
      for_range (image.X (image.Min bounds)) (image.X (image.Max bounds)) (fun x dst =>
        image.RGBA_Set dst
          x
          (int_sub (int_sub (image.Y (image.Max bounds)) 1) y)
          (image.At src x y))) dst in
  Ok (set_Img p (image.RGBA_Image dst)).

(** [float64(val) + (255.0 * scale)], fused or not *)
Definition scaled_sum (fused : bool) (val : Z) (scale : float) : float :=
  if fused then float64_fma 255%float scale (float64_of_int val)
  else PrimFloat.add (float64_of_int val) (PrimFloat.mul 255%float scale).

(** the closure [adjust] of [Brightness], for a given [scale] *)
Definition adjust (scale : float) (val : Z) : Z :=
  let newVal := scaled_sum float64_fused val scale in
  if PrimFloat.ltb 255%float newVal then 255
  else if PrimFloat.ltb newVal 0%float then 0
  else match float64_trunc newVal with
       | Some z => uint8 z
       | None => 0
       end.

Definition Brightness (percentage : Z) (p : Processor) : outcome Processor :=
  src <~ Img_deref p ;;
  let bounds := image.Bounds src in
  dst <~ image.NewRGBA bounds ;;
  let percentage := if percentage <? -100 then -100 else percentage in
  let percentage := if 100 <? percentage then 100 else percentage in
  let scale := PrimFloat.div (float64_of_int percentage) 100%float in
  let dst :=
    for_range (image.Y (image.Min bounds)) (image.Y (image.Max bounds)) (fun y =>
      for_range (image.X (image.Min bounds)) (image.X (image.Max bounds)) (fun x dst =>
        let originalColor := image.At src x y in
        let nr := uint8 (Z.shiftr (color.cR originalColor) 8) in
        let ng := uint8 (Z.shiftr (color.cG originalColor) 8) in
        let nb := uint8 (Z.shiftr (color.cB originalColor) 8) in
        let na := uint8 (Z.shiftr (color.cA originalColor) 8) in
        image.RGBA_Set dst x y
          (color.RGBA_RGBA (color.mkRGBA (adjust scale nr) (adjust scale ng)
                                         (adjust scale nb) na)))) dst in
  Ok (set_Img p (image.RGBA_Image dst)).

Definition ToPNG (p : Processor) : Processor := mkProcessor (Img p) (Quality p) "png".
Definition ToJPEG (p : Processor) : Processor := mkProcessor (Img p) (Quality p) "jpeg".
Definition ToGIF (p : Processor) : Processor := mkProcessor (Img p) (Quality p) "gif".
Definition ToBMP (p : Processor) : Processor := mkProcessor (Img p) (Quality p) "bmp".
Definition ToTIFF (p : Processor) : Processor := mkProcessor (Img p) (Quality p) "tiff".

(** the [switch format] of [Encode]: the codec call of a normalised tag *)
Definition select_codec (p : Processor) (format : string) : option CodecCall :=
  if (format =? "jpg")%string || (format =? "jpeg")%string then
    Some (jpeg_Encode (Quality p))
  else if (format =? "png")%string then
    let level := if Quality p <=? 25 then BestSpeed
                 else if 76 <=? Quality p then BestCompression
                 else DefaultCompression in
    Some (png_Encode level)
  else if (format =? "gif")%string then Some gif_Encode
  else if (format =? "bmp")%string then Some bmp_Encode
  else if (format =? "tiff")%string || (format =? "tif")%string then Some tiff_Encode
  else None.

(** the tag [Encode] switches on: [strings.TrimPrefix(strings.ToLower(format), ".")] *)
Definition normalize (format : string) : string := TrimPrefix (ToLower format) ".".

(** [Encode(w, format)]: the bytes appended to the sink [w] and the result *)
Definition Encode (p : Processor) (w : list Z) (format : string) : list Z * outcome unit :=
  let format := if (format =? "")%string then TargetFormat p else format in
  let format := normalize format in
  match select_codec p format with
  | Some call => let (written, r) := codec_Encode call (Img p) in (w ++ written, r)
  | None => (w, Err (ErrUnsupportedFormat format))
  end.

(** the local [format] of [Save]: the target format, else the extension *)
Definition Save_format (p : Processor) (path : string) : string :=
  let format := TargetFormat p in
  if (format =? "")%string then Ext path else format.

(** [Save(path)]: the file is created (or truncated) first, then holds
    whatever [Encode] wrote to it *)
Definition Save (p : Processor) (path : string) (fs : FS) : FS * outcome unit :=
  match os_Create fs path with
  | inl cause => (fs, Err (ErrCreateFile cause))
  | inr fs1 =>
      let (content, r) := Encode p [] (Save_format p path) in
      (<[path := File content]> fs1, r)
  end.

Definition ToBytes (p : Processor) (format : string) : outcome (list Z) :=
  let format := if (format =? "")%string then TargetFormat p else format in
  if (format =? "")%string then Err ErrNoFormat
  else
    let (buf, r) := Encode p [] format in
    _ <~ r ;; Ok buf.

(** ** [pkg/img/loader.go] *)

Definition decodeSVG (ioReader : list Z) : outcome image.Image :=
  match oksvg_ReadIconStream ioReader with
  | inl cause => Err (ErrReadSVG cause)
  | inr icon =>
      let w := float64_to_int (VW (icon_ViewBox icon)) in
      let h := float64_to_int (VH (icon_ViewBox icon)) in
      let '(w, h) := if (w <=? 0) || (h <=? 0) then (512, 512) else (w, h) in
      img <~ image.NewRGBA (image.Rect 0 0 w h) ;;
      let img := RGBA_with_Pix img (icon_Draw icon w h img) in
      Ok (image.RGBA_Image img)
  end.

End Img.

(** ** The transforms and the chainable calls, as data *)

Inductive transform : Type :=
| TResize (width height : Z)
| TGrayscale
| TRotate180
| TRotate90
| TFlipHorizontal
| TFlipVertical
| TBrightness (percentage : Z)
| TWatermark (text : string).

Inductive call : Type :=
| CTransform (t : transform)
| CSetQuality (quality : Z)
| CToPNG
| CToJPEG
| CToGIF
| CToBMP
| CToTIFF.

Section Chains.

Context `{libs : ExtLibs}.

Definition apply_transform (t : transform) (p : Processor) : outcome Processor :=
  match t with
  | TResize w h => Resize w h p
  | TGrayscale => Grayscale p
  | TRotate180 => Rotate180 p
  | TRotate90 => Rotate90 p
  | TFlipHorizontal => FlipHorizontal p
  | TFlipVertical => FlipVertical p
  | TBrightness pct => Brightness pct p
  | TWatermark text => Watermark text p
  end.

Definition apply_call (c : call) (p : Processor) : outcome Processor :=
  match c with
  | CTransform t => apply_transform t p
  | CSetQuality q => Ok (SetQuality q p)
  | CToPNG => Ok (ToPNG p)
  | CToJPEG => Ok (ToJPEG p)
  | CToGIF => Ok (ToGIF p)
  | CToBMP => Ok (ToBMP p)
  | CToTIFF => Ok (ToTIFF p)
  end.

(** a fluent chain [p.c1().c2()...] *)
Fixpoint chain (cs : list call) (p : Processor) : outcome Processor :=
  match cs with
  | [] => Ok p
  | c :: cs' => p' <~ apply_call c p ;; chain cs' p'
  end.

End Chains.

(** the tag a [To<Format>] call stores *)
Definition format_set_by (c : call) : option string :=
  match c with
  | CToPNG => Some "png"
  | CToJPEG => Some "jpeg"
  | CToGIF => Some "gif"
  | CToBMP => Some "bmp"
  | CToTIFF => Some "tiff"
  | CTransform _ => None
  | CSetQuality _ => None
  end.

(** the tag of the last [To<Format>] call of a chain, if there is one *)
Fixpoint last_format (cs : list call) (acc : option string) : option string :=
  match cs with
  | [] => acc
  | c :: cs' => last_format cs' (match format_set_by c with Some f => Some f | None => acc end)
  end.

(** ** Notions the statements use *)

(** [n] chained calls of one method: [p.f().f()...] *)
Fixpoint times (n : nat) (f : Processor -> outcome Processor) (p : Processor)
    : outcome Processor :=
  match n with
  | O => Ok p
  | S n' => p' <~ f p ;; times n' f p'
  end.

(** the sample at (x, y) of the image a chain ends with *)
Definition result_At (o : outcome Processor) (x y : Z) : option color.Color :=
  match o with
  | Ok p => match Img p with
            | Some img => Some (image.At img x y)
            | None => None
            end
  | Err _ => None
  | Panic _ => None
  end.

(** the bounds of the image a chain ends with *)
Definition result_Bounds (o : outcome Processor) : option image.Rectangle :=
  match o with
  | Ok p => match Img p with
            | Some img => Some (image.Bounds img)
            | None => None
            end
  | Err _ => None
  | Panic _ => None
  end.


(** the seven tags of the dispatch table *)
Definition supported (tag : string) : bool :=
  bool_decide (tag ∈ ["jpg"; "jpeg"; "png"; "gif"; "bmp"; "tiff"; "tif"]%string).

(** the format a codec call writes *)
Definition codec_tag (c : CodecCall) : string :=
  match c with
  | jpeg_Encode _ => "jpeg"
  | png_Encode _ => "png"
  | gif_Encode => "gif"
  | bmp_Encode => "bmp"
  | tiff_Encode => "tiff"
  end.

(** a colour as an [*image.RGBA] holds it: 8 bits a channel *)
Definition to8 (c : color.Color) : color.Color := color.RGBA_RGBA (color.RGBAModel c).

(** a [color.RGBA] whose fields are bytes *)
Definition is8 (c : color.RGBA) : Prop :=
  0 <= color.R c < 256 /\ 0 <= color.G c < 256 /\
  0 <= color.B c < 256 /\ 0 <= color.A c < 256.

(** the four 8-bit channel values [uint8(v >> 8)] of a colour *)
Definition channels8 (c : color.Color) : color.RGBA := color.RGBAModel c.

(** [clamp(v, lo, hi)] *)
Definition clamp (v lo hi : Z) : Z := Z.max lo (Z.min hi v).

(** dimensions whose pixel buffer [image.NewRGBA] can allocate, as they
    are and turned by a quarter: neither side is negative, four times a side
    fits 64 bits, and the buffer is within the allocation limit *)
Definition allocatable (r : image.Rectangle) : Prop :=
  0 <= image.X (image.Max r) - image.X (image.Min r) <= max_int /\
  0 <= image.Y (image.Max r) - image.Y (image.Min r) <= max_int /\
  (4 * (image.X (image.Max r) - image.X (image.Min r)) < 2 ^ 64 /\
   4 * (image.Y (image.Max r) - image.Y (image.Min r)) < 2 ^ 64 /\
   4 * (image.X (image.Max r) - image.X (image.Min r))
     * (image.Y (image.Max r) - image.Y (image.Min r)) <= maxAlloc).

(** a [W] by [H] grid with its origin at (0, 0) *)
Definition grid (W H : Z) : image.Rectangle :=
  image.mkRectangle (image.mkPoint 0 0) (image.mkPoint W H).

(** the pixels of a rectangle in the order the loops of the package visit
    them: rows from [Min.Y], each from [Min.X] *)
Definition scan (r : image.Rectangle) : list (Z * Z) :=
  y ← seqZ (image.Y (image.Min r)) (image.Y (image.Max r) - image.Y (image.Min r));
  x ← seqZ (image.X (image.Min r)) (image.X (image.Max r) - image.X (image.Min r));
  [(x, y)].

(** the effect of a pixel loop on its destination: every visited pixel
    [pt] is stored at [d pt] with the colour [c pt], in visiting order *)
Definition paint (d : Z * Z -> Z * Z) (c : Z * Z -> color.Color)
    (pts : list (Z * Z)) (m : image.RGBA) : image.RGBA :=
  foldl (fun m pt => image.RGBA_Set m (fst (d pt)) (snd (d pt)) (c pt)) m pts.

(** the invariant of a buffer made by [image.NewRGBA] *)
Definition wf_RGBA (m : image.RGBA) : Prop :=
  let r := image.RGBA_Rect m in
  0 <= image.X (image.Max r) - image.X (image.Min r) /\
  0 <= image.Y (image.Max r) - image.Y (image.Min r) /\
  (0 < image.Y (image.Max r) - image.Y (image.Min r) ->
   image.RGBA_Stride m = 4 * (image.X (image.Max r) - image.X (image.Min r))) /\
  Z.of_nat (length (image.RGBA_Pix m)) =
    4 * (image.X (image.Max r) - image.X (image.Min r))
      * (image.Y (image.Max r) - image.Y (image.Min r)).

(** ** Sample data *)

(** libraries that do nothing: no resampling, no drawing, codecs that write
    one byte naming themselves *)
Definition plain_libs : ExtLibs := {|
  unicode_ToLower := fun s => s;
  CatmullRom_Scale := fun dst _ _ _ => image.RGBA_Pix dst;
  draw_Draw := fun dst _ _ _ => image.RGBA_Pix dst;
  Drawer_DrawString := fun dst _ _ _ => image.RGBA_Pix dst;
  codec_Encode := fun c img =>
    match img with
    | None => ([], Panic NilDereference)
    | Some _ =>
        ([match c with
          | jpeg_Encode _ => 1 | png_Encode _ => 2 | gif_Encode => 3
          | bmp_Encode => 4 | tiff_Encode => 5
          end], Ok tt)
    end;
  oksvg_ReadIconStream := fun _ => inr (mkSvgIcon (mkViewBox 0 0 100 50) []);
  icon_Draw := fun _ _ _ img => image.RGBA_Pix img;
  float64_to_int_unrepresentable := fun _ => min_int;
  float64_fused := false
|}.

(** the same on a platform that fuses the multiplication and the addition *)
Definition fused_libs : ExtLibs := {|
  unicode_ToLower := @unicode_ToLower plain_libs;
  CatmullRom_Scale := @CatmullRom_Scale plain_libs;
  draw_Draw := @draw_Draw plain_libs;
  Drawer_DrawString := @Drawer_DrawString plain_libs;
  codec_Encode := @codec_Encode plain_libs;
  oksvg_ReadIconStream := @oksvg_ReadIconStream plain_libs;
  icon_Draw := @icon_Draw plain_libs;
  float64_to_int_unrepresentable := @float64_to_int_unrepresentable plain_libs;
  float64_fused := true
|}.

(** an image of [r] whose sample at (x, y) is [f x y], transparent black
    elsewhere (as [*image.RGBA64] and its like answer out of bounds) *)
Definition image_of (r : image.Rectangle) (f : Z -> Z -> color.Color) : image.Image :=
  image.mkImage r (fun x y => if image.In x y r then f x y else color.mkColor 0 0 0 0).

(** a 3 by 2 grid of 8-bit samples, all different *)
Definition sample3x2 : image.Image :=
  image_of (grid 3 2) (fun x y => color.RGBA_RGBA (color.mkRGBA (10 * x + y) (20 + x) (40 + y) 255)).

(** one opaque pixel with a 16-bit red sample, as a 16-bit PNG decodes to *)
Definition deep1x1 : image.Image :=
  image_of (grid 1 1) (fun _ _ => color.mkColor 4660 0 0 65535).

(** a 2 by 1 image whose bounds start at (1, 0), as [SubImage] returns *)
Definition shifted2x1 : image.Image :=
  image_of (image.mkRectangle (image.mkPoint 1 0) (image.mkPoint 3 1))
           (fun x _ => color.RGBA_RGBA (color.mkRGBA (100 + x) 0 0 255)).

(** ** The loader ([pkg/img/loader.go]) and [Convert] *)

(** an [io.Reader] handed to a decoder: the bytes it yields, or a read that
    fails *)
Inductive Reader : Type :=
| ReadOf (content : list Z)
| ReadFails (cause : string).

(** [os.Open(path)]: a missing path fails; a directory opens, and its reads
    fail *)
Definition os_Open (fs : FS) (path : string) : string + Reader :=
  match fs !! path with
  | None => inl ("open " ++ path ++ ": no such file or directory")%string
  | Some (File content) => inr (ReadOf content)
  | Some Dir => inr (ReadFails ("read " ++ path ++ ": is a directory")%string)
  end.

(** the answer of [http.Get(url)]: a transport error, or a status code and
    a body *)
Abbreviation Net := (string -> string + (Z * Reader)).

(** [strings.HasPrefix] and [strings.HasSuffix] *)
Definition HasPrefix (s prefix : string) : bool := String.prefix prefix s.

Definition HasSuffix (s suffix : string) : bool :=
  (String.length suffix <=? String.length s)%nat &&
  (substring (String.length s - String.length suffix) (String.length suffix) s =? suffix)%string.

Inductive load_error : Type :=
| ErrOpenFile (cause : string)      (* "failed to open file: %w" *)
| ErrDecodeImage (cause : string)   (* "failed to decode image: %w" *)
| ErrDownload (cause : string)      (* "failed to download image: %w" *)
| ErrStatusCode (code : Z)          (* "failed to download image, status code: %d" *)
| ErrDecodeSVG (e : error).         (* the error [decodeSVG] returns *)

(** what [Load] returns: an image, an error, or a panic of [decodeSVG] *)
Inductive loaded : Type :=
| LoadOk (img : image.Image)
| LoadErr (e : load_error)
| LoadPanic (p : panic).

(** what [Convert] returns: the result of [Save], or "load failed: %w" *)
Inductive converted : Type :=
| Saved (r : outcome unit)
| ErrLoadFailed (e : load_error)
| ConvertPanic (p : panic).

Class LoadLibs : Type := {
  (** [image.Decode(r)], with the decoders the loader registers *)
  image_Decode : Reader -> string + image.Image;
  (** [oksvg.ReadIconStream] on a reader whose reads fail *)
  oksvg_ReadIconStream_failing : string -> string + SvgIcon
}.

Section Loader.

Context `{libs : ExtLibs} `{llibs : LoadLibs}.

(** the body of [decodeSVG] after the call of the parser *)
Definition rasterize (parsed : string + SvgIcon) : outcome image.Image :=
  match parsed with
  | inl cause => Err (ErrReadSVG cause)
  | inr icon =>
      let w := float64_to_int (VW (icon_ViewBox icon)) in
      let h := float64_to_int (VH (icon_ViewBox icon)) in
      let '(w, h) := if (w <=? 0) || (h <=? 0) then (512, 512) else (w, h) in
      img <~ image.NewRGBA (image.Rect 0 0 w h) ;;
      let img := RGBA_with_Pix img (icon_Draw icon w h img) in
      Ok (image.RGBA_Image img)
  end.

(** [decodeSVG] on a file or a response body *)
Definition decodeSVG_from (r : Reader) : outcome image.Image :=
  match r with
  | ReadOf content => decodeSVG content
  | ReadFails cause => rasterize (oksvg_ReadIconStream_failing cause)
  end.

Definition loaded_of (o : outcome image.Image) : loaded :=
  match o with
  | Ok img => LoadOk img
  | Err e => LoadErr (ErrDecodeSVG e)
  | Panic p => LoadPanic p
  end.

(** the tail shared by [loadLocal] and [loadRemote]: SVG by suffix, else
    [image.Decode] *)
Definition decode_by_suffix (name : string) (r : Reader) : loaded :=
  if HasSuffix (ToLower name) ".svg" then loaded_of (decodeSVG_from r)
  else match image_Decode r with
       | inl cause => LoadErr (ErrDecodeImage cause)
       | inr img => LoadOk img
       end.

Definition loadLocal (fs : FS) (path : string) : loaded :=
  match os_Open fs path with
  | inl cause => LoadErr (ErrOpenFile cause)
  | inr file => decode_by_suffix path file
  end.

Definition loadRemote (net : Net) (url : string) : loaded :=
  match net url with
  | inl cause => LoadErr (ErrDownload cause)
  | inr (StatusCode, Body) =>
      if negb (StatusCode =? 200) then LoadErr (ErrStatusCode StatusCode)
      else decode_by_suffix url Body
  end.

Definition Load (net : Net) (fs : FS) (path : string) : loaded :=
  if HasPrefix path "http://" || HasPrefix path "https://" then loadRemote net path
  else loadLocal fs path.

(** [func (p *Processor) Image() image.Image] *)
Definition Image (p : Processor) : option image.Image := Img p.

(** [Convert(src, dst)] *)
Definition Convert (net : Net) (src dst : string) (fs : FS) : FS * converted :=
  match Load net fs src with
  | LoadErr e => (fs, ErrLoadFailed e)
  | LoadPanic pn => (fs, ConvertPanic pn)
  | LoadOk img =>
      let (fs', r) := Save (NewProcessor (Some img)) dst fs in (fs', Saved r)
  end.

End Loader.

(** ** Further notions the statements use *)

(** the invariant of a buffer made by [image.NewGray] *)
Definition wf_Gray (m : image.Gray) : Prop :=
  let r := image.Gray_Rect m in
  0 <= image.X (image.Max r) - image.X (image.Min r) /\
  0 <= image.Y (image.Max r) - image.Y (image.Min r) /\
  image.Gray_Stride m = image.X (image.Max r) - image.X (image.Min r) /\
  Z.of_nat (length (image.Gray_Pix m)) =
    image.Gray_Stride m * (image.Y (image.Max r) - image.Y (image.Min r)).

(** the loop of [Grayscale] on its destination *)
Definition paint_gray (c : Z * Z -> color.Color) (pts : list (Z * Z)) (m : image.Gray)
    : image.Gray :=
  foldl (fun m pt => image.Gray_Set m (fst pt) (snd pt) (c pt)) m pts.

(** the luminance [Grayscale] stores for a colour, as a colour *)
Definition gray_of (c : color.Color) : color.Color := color.Gray_RGBA (color.GrayModel c).

(** two images with the same bounds and the same sample at every in-bounds
    coordinate *)
Definition same_grid (a b : image.Image) : Prop :=
  image.Bounds a = image.Bounds b /\
  forall x y, image.In x y (image.Bounds a) = true -> image.At a x y = image.At b x y.

(** two chains that end with the same grid and otherwise the same state *)
Definition same_result (o1 o2 : outcome Processor) : Prop :=
  exists p1 p2 a b, o1 = Ok p1 /\ o2 = Ok p2 /\ Img p1 = Some a /\ Img p2 = Some b /\
    same_grid a b /\ Quality p1 = Quality p2 /\ TargetFormat p1 = TargetFormat p2.

(** a string of ASCII bytes *)
Definition ascii_string (s : string) : bool := string_forall is_ascii s.

(** a string free of the characters that end an extension scan *)
Definition plain_ext (s : string) : bool :=
  string_forall (fun c => negb (Ascii.eqb c "/") && negb (Ascii.eqb c ".")) s.

(** loader libraries for the sample data: every stream decodes to the
    sample grid *)
Definition plain_load_libs : LoadLibs := {|
  image_Decode := fun r =>
    match r with
    | ReadOf _ => inr sample3x2
    | ReadFails cause => inl cause
    end;
  oksvg_ReadIconStream_failing := fun cause => inl cause
|}.

(** the sample libraries, with a parser that reports a view-box of 3e9 by
    3e9 *)
Definition huge_svg_libs : ExtLibs := {|
  unicode_ToLower := @unicode_ToLower plain_libs;
  CatmullRom_Scale := @CatmullRom_Scale plain_libs;
  draw_Draw := @draw_Draw plain_libs;
  Drawer_DrawString := @Drawer_DrawString plain_libs;
  codec_Encode := @codec_Encode plain_libs;
  oksvg_ReadIconStream := fun _ =>
    inr (mkSvgIcon (mkViewBox 0 0 3000000000 3000000000) []);
  icon_Draw := @icon_Draw plain_libs;
  float64_to_int_unrepresentable := @float64_to_int_unrepresentable plain_libs;
  float64_fused := @float64_fused plain_libs
|}.

(** one opaque pixel with a red sample of 52 *)
Definition red52 : image.Image :=
  image_of (grid 1 1) (fun _ _ => color.RGBA_RGBA (color.mkRGBA 52 0 0 255)).

(** the bytes of a text *)
Definition bytes_of (s : string) : list Z :=
  (fun c => Z.of_N (N_of_ascii c)) <$> list_ascii_of_string s.

(** whether a text occurs in another *)
Fixpoint occurs (sub s : string) : bool :=
  String.prefix sub s ||
  match s with
  | EmptyString => false
  | String _ rest => occurs sub rest
  end.

(** the document of the repository's test: a size given by the [height] and
    [width] attributes, and no [viewBox] attribute *)
Definition test_svg : string :=
  let q := String (ascii_of_nat 34) EmptyString in
  ("<svg height=" ++ q ++ "100" ++ q ++ " width=" ++ q ++ "100" ++ q ++ ">" ++
   "<circle cx=" ++ q ++ "50" ++ q ++ " cy=" ++ q ++ "50" ++ q ++ " r=" ++ q ++ "40" ++ q ++
   " stroke=" ++ q ++ "black" ++ q ++ " stroke-width=" ++ q ++ "3" ++ q ++
   " fill=" ++ q ++ "red" ++ q ++ " /></svg>")%string.

(** the sample libraries, with a parser that answers on the test document
    as oksvg does: a [ViewBox] left without a width or a height by the
    attributes is given those of the [width] and [height] attributes, here
    100 by 100; any other document gets the zero [ViewBox] *)
Definition test_svg_libs : ExtLibs := {|
  unicode_ToLower := @unicode_ToLower plain_libs;
  CatmullRom_Scale := @CatmullRom_Scale plain_libs;
  draw_Draw := @draw_Draw plain_libs;
  Drawer_DrawString := @Drawer_DrawString plain_libs;
  codec_Encode := @codec_Encode plain_libs;
  oksvg_ReadIconStream := fun doc =>
    if bool_decide (doc = bytes_of test_svg)
    then inr (mkSvgIcon (mkViewBox 0 0 100 100) [])
    else inr (mkSvgIcon (mkViewBox 0 0 0 0) []);
  icon_Draw := @icon_Draw plain_libs;
  float64_to_int_unrepresentable := @float64_to_int_unrepresentable plain_libs;
  float64_fused := @float64_fused plain_libs
|}.

(** a network that answers every request with status 404 and an empty body *)
Definition net_404 : Net := fun _ => inr (404, ReadOf []).

(** a network with nothing on it *)
Definition no_net : Net := fun _ => inl "no route to host"%string.

(* ===================================================================== *)
(** * Part II. Properties                                                 *)
(* ===================================================================== *)

(** ** Integers and bytes *)

Lemma wrap_int_small z : min_int <= z <= max_int -> wrap_int z = z.
Proof.
  unfold wrap_int, min_int, max_int. intros Hz.
  rewrite Z.mod_small by lia. lia.
Qed.

Lemma int_sub_exact a b : min_int <= a - b <= max_int -> int_sub a b = a - b.
Proof. apply wrap_int_small. Qed.

Lemma uint8_mod v : uint8 v = v mod 256.
Proof. unfold uint8. change 255 with (Z.ones 8). now rewrite Z.land_ones by lia. Qed.

Lemma uint8_range v : 0 <= uint8 v < 256.
Proof. rewrite uint8_mod. apply Z.mod_pos_bound. lia. Qed.

Lemma uint8_small v : 0 <= v < 256 -> uint8 v = v.
Proof. intros. rewrite uint8_mod. now apply Z.mod_small. Qed.

(** a decidable property of a byte holds of all of them once it has been
    computed on the 256 values *)
Lemma forall_byte (P : Z -> bool) :
  forallb P (seqZ 0 256) = true -> forall v, 0 <= v < 256 -> P v = true.
Proof.
  intros Hall v Hv. rewrite forallb_forall in Hall. apply Hall.
  apply list_elem_of_In, elem_of_seqZ. lia.
Qed.

Lemma replicate8 v : 0 <= v < 256 -> uint8 (Z.shiftr (Z.lor v (Z.shiftl v 8)) 8) = v.
Proof.
  intros Hv. apply Z.eqb_eq.
  apply (forall_byte (fun v => uint8 (Z.shiftr (Z.lor v (Z.shiftl v 8)) 8) =? v)); [|exact Hv].
  vm_compute. reflexivity.
Qed.

(** ** Colours *)

Lemma RGBAModel_is8 c : is8 (color.RGBAModel c).
Proof. unfold is8, color.RGBAModel; simpl. auto using uint8_range. Qed.

Lemma RGBAModel_RGBA c : is8 c -> color.RGBAModel (color.RGBA_RGBA c) = c.
Proof.
  destruct c as [r g b a]. unfold is8; simpl. intros (Hr & Hg & Hb & Ha).
  unfold color.RGBAModel, color.RGBA_RGBA; simpl.
  now rewrite !replicate8.
Qed.

Lemma to8_idem c : to8 (to8 c) = to8 c.
Proof. unfold to8. now rewrite RGBAModel_RGBA by apply RGBAModel_is8. Qed.

Lemma to8_RGBA c : is8 c -> to8 (color.RGBA_RGBA c) = color.RGBA_RGBA c.
Proof. intros Hc. unfold to8. now rewrite RGBAModel_RGBA. Qed.

(** ** The pixel buffer of [image.RGBA] *)

Lemma Dx_exact r :
  0 <= image.X (image.Max r) - image.X (image.Min r) <= max_int ->
  image.Dx r = image.X (image.Max r) - image.X (image.Min r).
Proof. intros H. apply int_sub_exact. unfold min_int. lia. Qed.

Lemma Dy_exact r :
  0 <= image.Y (image.Max r) - image.Y (image.Min r) <= max_int ->
  image.Dy r = image.Y (image.Max r) - image.Y (image.Min r).
Proof. intros H. apply int_sub_exact. unfold min_int. lia. Qed.

Lemma In_spec x y r :
  image.In x y r = true <->
  image.X (image.Min r) <= x < image.X (image.Max r) /\
  image.Y (image.Min r) <= y < image.Y (image.Max r).
Proof. unfold image.In. rewrite !andb_true_iff, !Z.leb_le, !Z.ltb_lt. lia. Qed.

Lemma pix_get_replicate n i : image.pix_get (replicate n 0) i = 0.
Proof.
  unfold image.pix_get.
  destruct (replicate n 0 !! Z.to_nat i) as [v|] eqn:E; [|reflexivity].
  apply lookup_replicate in E. now destruct E as [-> _].
Qed.

(** [mul3NonNeg] on arguments that are not negative: the product when the
    first product fits 64 bits and the whole fits an [int], else [-1] *)
Lemma mul3NonNeg_exact x y z :
  0 <= x -> 0 <= y -> 0 <= z -> x * y < 2 ^ 64 -> x * y * z <= max_int ->
  image.mul3NonNeg x y z = x * y * z.
Proof.
  intros Hx Hy Hz Hxy Hxyz. unfold max_int in Hxyz.
  assert (0 <= x * y) by nia. assert (0 <= x * y * z) by nia.
  unfold image.mul3NonNeg, Mul64.
  destruct (Z.ltb_spec x 0); [lia|]. destruct (Z.ltb_spec y 0); [lia|].
  destruct (Z.ltb_spec z 0); [lia|]. cbn [orb].
  rewrite (Z.div_small (x * y)), (Z.mod_small (x * y)) by lia. cbn [Z.eqb negb].
  rewrite (Z.div_small (x * y * z)), (Z.mod_small (x * y * z)) by lia. cbn [Z.eqb negb].
  rewrite wrap_int_small by (unfold min_int, max_int; lia).
  destruct (Z.ltb_spec (x * y * z) 0); [lia|]. cbn [orb].
  rewrite (Z.mod_small (x * y * z)) by lia. now rewrite Z.eqb_refl.
Qed.

Lemma mul3NonNeg_overflow x y z :
  0 <= x -> 0 <= y -> 0 <= z -> 2 ^ 64 <= x * y \/ max_int < x * y * z ->
  image.mul3NonNeg x y z = -1.
Proof.
  intros Hx Hy Hz Hbig. unfold max_int in Hbig.
  assert (0 <= x * y) by nia. assert (0 <= x * y * z) by nia.
  unfold image.mul3NonNeg, Mul64.
  destruct (Z.ltb_spec x 0); [lia|]. destruct (Z.ltb_spec y 0); [lia|].
  destruct (Z.ltb_spec z 0); [lia|]. cbn [orb].
  destruct (Z.eqb_spec (x * y / 2 ^ 64) 0) as [E1|]; [|reflexivity]. cbn [negb].
  assert (Hxy : x * y < 2 ^ 64).
  { destruct (Z.lt_ge_cases (x * y) (2 ^ 64)) as [|Hge]; [assumption|].
    pose proof (Z.div_le_mono _ _ (2 ^ 64) ltac:(lia) Hge) as Hd.
    rewrite Z.div_same in Hd by lia. lia. }
  rewrite (Z.mod_small (x * y)) by lia.
  destruct (Z.eqb_spec (x * y * z / 2 ^ 64) 0) as [E2|]; [|reflexivity]. cbn [negb].
  assert (Hxyz : x * y * z < 2 ^ 64).
  { destruct (Z.lt_ge_cases (x * y * z) (2 ^ 64)) as [|Hge]; [assumption|].
    pose proof (Z.div_le_mono _ _ (2 ^ 64) ltac:(lia) Hge) as Hd.
    rewrite Z.div_same in Hd by lia. lia. }
  rewrite (Z.mod_small (x * y * z)) by lia.
  assert (Ew : wrap_int (x * y * z) = x * y * z - 2 ^ 64).
  { unfold wrap_int.
    replace (x * y * z + 2 ^ 63) with (x * y * z - 2 ^ 63 + 1 * 2 ^ 64) by lia.
    rewrite Z.mod_add by lia. rewrite Z.mod_small by lia. lia. }
  rewrite Ew. destruct (Z.ltb_spec (x * y * z - 2 ^ 64) 0); [reflexivity|lia].
Qed.

Lemma mul3NonNeg_negative x y z : x < 0 \/ y < 0 \/ z < 0 -> image.mul3NonNeg x y z = -1.
Proof.
  intros Hn. unfold image.mul3NonNeg.
  destruct (Z.ltb_spec x 0); [reflexivity|]. destruct (Z.ltb_spec y 0); [reflexivity|].
  destruct (Z.ltb_spec z 0); [reflexivity|lia].
Qed.

(** what [image.NewRGBA] does with a rectangle whose sides are not negative *)
Lemma NewRGBA_made r :
  0 <= image.X (image.Max r) - image.X (image.Min r) <= max_int ->
  0 <= image.Y (image.Max r) - image.Y (image.Min r) <= max_int ->
  4 * (image.X (image.Max r) - image.X (image.Min r)) < 2 ^ 64 ->
  4 * (image.X (image.Max r) - image.X (image.Min r))
    * (image.Y (image.Max r) - image.Y (image.Min r)) <= maxAlloc ->
  image.NewRGBA r =
  Ok (image.mkRGBA
        (replicate (Z.to_nat (4 * (image.X (image.Max r) - image.X (image.Min r))
                                * (image.Y (image.Max r) - image.Y (image.Min r)))) 0)
        (int_mul 4 (image.X (image.Max r) - image.X (image.Min r))) r).
Proof.
  intros Hx Hy H4 Hsz. unfold image.NewRGBA, image.pixelBufferLength.
  rewrite (Dx_exact r Hx), (Dy_exact r Hy).
  rewrite mul3NonNeg_exact by (unfold maxAlloc, max_int in *; lia).
  destruct (Z.ltb_spec (4 * (image.X (image.Max r) - image.X (image.Min r))
                          * (image.Y (image.Max r) - image.Y (image.Min r))) 0); [nia|].
  cbn [obind]. unfold image.make_uint8.
  destruct (Z.ltb_spec maxAlloc (4 * (image.X (image.Max r) - image.X (image.Min r))
                                   * (image.Y (image.Max r) - image.Y (image.Min r)))); [lia|].
  reflexivity.
Qed.

(** [image.NewRGBA] panics on a side that is negative as an [int], on a
    row of 2^64 bytes or more, and on a buffer above the allocation limit *)
Lemma NewRGBA_refused r :
  image.Dx r < 0 \/ image.Dy r < 0 \/
  2 ^ 64 <= 4 * image.Dx r \/ maxAlloc < 4 * image.Dx r * image.Dy r ->
  image.NewRGBA r = Panic HugeDimensions.
Proof.
  intros Hbad. unfold image.NewRGBA, image.pixelBufferLength.
  destruct (Z.lt_ge_cases (image.Dx r) 0) as [Hx|Hx];
    [rewrite mul3NonNeg_negative by lia; reflexivity|].
  destruct (Z.lt_ge_cases (image.Dy r) 0) as [Hy|Hy];
    [rewrite mul3NonNeg_negative by lia; reflexivity|].
  destruct (Z.lt_ge_cases (4 * image.Dx r) (2 ^ 64)) as [H4|H4];
    [|rewrite mul3NonNeg_overflow by lia; reflexivity].
  destruct (Z.le_gt_cases (4 * image.Dx r * image.Dy r) max_int) as [Hm|Hm];
    [|rewrite mul3NonNeg_overflow by lia; reflexivity].
  rewrite mul3NonNeg_exact by lia.
  destruct (Z.ltb_spec (4 * image.Dx r * image.Dy r) 0); [reflexivity|].
  cbn [obind]. unfold image.make_uint8.
  destruct (Z.ltb_spec maxAlloc (4 * image.Dx r * image.Dy r)); [reflexivity|lia].
Qed.

Lemma NewRGBA_ok r :
  allocatable r ->
  exists m, image.NewRGBA r = Ok m /\ image.RGBA_Rect m = r /\ wf_RGBA m /\
            forall x y, image.RGBA_RGBAAt m x y = color.mkRGBA 0 0 0 0.
Proof.
  intros (Hx & Hy & H4 & _ & Hsz).
  rewrite (NewRGBA_made r Hx Hy H4 Hsz).
  eexists. split; [reflexivity|]. split; [reflexivity|]. split.
  - unfold wf_RGBA; cbn [image.RGBA_Rect image.RGBA_Stride image.RGBA_Pix].
    split; [lia|]. split; [lia|]. split.
    + intros HH. unfold int_mul. apply wrap_int_small.
      unfold maxAlloc, max_int, min_int in *. nia.
    + rewrite length_replicate, Z2Nat.id by nia. reflexivity.
  - intros x y. unfold image.RGBA_RGBAAt; simpl.
    destruct (image.In x y r); [|reflexivity].
    now rewrite !pix_get_replicate.
Qed.

Lemma RGBA_Set_Rect m x y c : image.RGBA_Rect (image.RGBA_Set m x y c) = image.RGBA_Rect m.
Proof. unfold image.RGBA_Set. now destruct (image.In x y (image.RGBA_Rect m)). Qed.

Lemma RGBA_Set_wf m x y c : wf_RGBA m -> wf_RGBA (image.RGBA_Set m x y c).
Proof.
  unfold image.RGBA_Set. destruct (image.In x y (image.RGBA_Rect m)); [|easy].
  unfold wf_RGBA; simpl. now rewrite !length_insert.
Qed.

(** the four bytes of an in-bounds pixel lie inside the buffer *)
Lemma PixOffset_bounds m x y :
  wf_RGBA m -> image.In x y (image.RGBA_Rect m) = true ->
  0 <= image.RGBA_PixOffset m x y /\
  image.RGBA_PixOffset m x y + 3 < Z.of_nat (length (image.RGBA_Pix m)).
Proof.
  intros (Hx & Hy & Hs & Hl) Hin%In_spec.
  unfold image.RGBA_PixOffset. rewrite Hl, Hs by lia. nia.
Qed.

(** two different in-bounds pixels are at least four bytes apart *)
Lemma PixOffset_apart m x y x' y' :
  wf_RGBA m ->
  image.In x y (image.RGBA_Rect m) = true -> image.In x' y' (image.RGBA_Rect m) = true ->
  (x, y) <> (x', y') ->
  image.RGBA_PixOffset m x y + 4 <= image.RGBA_PixOffset m x' y' \/
  image.RGBA_PixOffset m x' y' + 4 <= image.RGBA_PixOffset m x y.
Proof.
  intros (Hx & Hy & Hs & Hl) Hin%In_spec Hin'%In_spec Hne.
  unfold image.RGBA_PixOffset. rewrite Hs by lia.
  destruct (Z.lt_trichotomy y y') as [Hlt | [Heq | Hgt]].
  - left. nia.
  - subst y'. assert (x <> x') by congruence. nia.
  - right. nia.
Qed.

(** the four stores of [Set], read back *)
Lemma store4_other (pix : list Z) (n k : nat) r g b a :
  (k < n \/ n + 4 <= k)%nat ->
  <[(n + 3)%nat := a]> (<[(n + 2)%nat := b]> (<[(n + 1)%nat := g]> (<[n := r]> pix))) !! k
  = pix !! k.
Proof. intros Hk. rewrite !list_lookup_insert_ne by lia. reflexivity. Qed.

Lemma store4_same (pix : list Z) (n : nat) r g b a :
  (n + 3 < length pix)%nat ->
  let pix' := <[(n + 3)%nat := a]> (<[(n + 2)%nat := b]> (<[(n + 1)%nat := g]> (<[n := r]> pix))) in
  pix' !! n = Some r /\ pix' !! (n + 1)%nat = Some g /\
  pix' !! (n + 2)%nat = Some b /\ pix' !! (n + 3)%nat = Some a.
Proof.
  intros Hn pix'. subst pix'. repeat split.
  - rewrite !list_lookup_insert_ne by lia. apply list_lookup_insert_eq. lia.
  - rewrite !list_lookup_insert_ne by lia. apply list_lookup_insert_eq.
    rewrite length_insert. lia.
  - rewrite list_lookup_insert_ne by lia. apply list_lookup_insert_eq.
    rewrite !length_insert. lia.
  - apply list_lookup_insert_eq. rewrite !length_insert. lia.
Qed.

Lemma RGBA_Set_Stride m x y c :
  image.RGBA_Stride (image.RGBA_Set m x y c) = image.RGBA_Stride m.
Proof. unfold image.RGBA_Set. now destruct (image.In x y (image.RGBA_Rect m)). Qed.

Lemma RGBA_Set_PixOffset m x y c x' y' :
  image.RGBA_PixOffset (image.RGBA_Set m x y c) x' y' = image.RGBA_PixOffset m x' y'.
Proof. unfold image.RGBA_PixOffset. now rewrite RGBA_Set_Rect, RGBA_Set_Stride. Qed.

Lemma RGBA_Set_Pix m x y c :
  image.In x y (image.RGBA_Rect m) = true ->
  image.RGBA_Pix (image.RGBA_Set m x y c) =
  <[(Z.to_nat (image.RGBA_PixOffset m x y) + 3)%nat := color.A (color.RGBAModel c)]>
    (<[(Z.to_nat (image.RGBA_PixOffset m x y) + 2)%nat := color.B (color.RGBAModel c)]>
      (<[(Z.to_nat (image.RGBA_PixOffset m x y) + 1)%nat := color.G (color.RGBAModel c)]>
        (<[Z.to_nat (image.RGBA_PixOffset m x y) := color.R (color.RGBAModel c)]>
          (image.RGBA_Pix m)))).
Proof. intros Hin. unfold image.RGBA_Set. now rewrite Hin. Qed.

Lemma RGBA_Set_get_eq m x y c :
  wf_RGBA m -> image.In x y (image.RGBA_Rect m) = true ->
  image.RGBA_RGBAAt (image.RGBA_Set m x y c) x y = color.RGBAModel c.
Proof.
  intros Hwf Hin. destruct (PixOffset_bounds m x y Hwf Hin) as [H0 H3].
  unfold image.RGBA_RGBAAt.
  rewrite RGBA_Set_Rect, Hin, RGBA_Set_PixOffset, RGBA_Set_Pix by exact Hin.
  set (i := image.RGBA_PixOffset m x y) in *.
  unfold image.pix_get.
  replace (Z.to_nat (i + 1)) with (Z.to_nat i + 1)%nat by lia.
  replace (Z.to_nat (i + 2)) with (Z.to_nat i + 2)%nat by lia.
  replace (Z.to_nat (i + 3)) with (Z.to_nat i + 3)%nat by lia.
  destruct (store4_same (image.RGBA_Pix m) (Z.to_nat i)
              (color.R (color.RGBAModel c)) (color.G (color.RGBAModel c))
              (color.B (color.RGBAModel c)) (color.A (color.RGBAModel c)))
    as (E0 & E1 & E2 & E3); [lia|].
  rewrite E0, E1, E2, E3. now destruct (color.RGBAModel c).
Qed.

Lemma RGBA_Set_get_ne m x y c x' y' :
  wf_RGBA m -> (x, y) <> (x', y') ->
  image.RGBA_RGBAAt (image.RGBA_Set m x y c) x' y' = image.RGBA_RGBAAt m x' y'.
Proof.
  intros Hwf Hne.
  destruct (image.In x y (image.RGBA_Rect m)) eqn:Hin;
    [|unfold image.RGBA_Set; now rewrite Hin].
  unfold image.RGBA_RGBAAt. rewrite RGBA_Set_Rect.
  destruct (image.In x' y' (image.RGBA_Rect m)) eqn:Hin'; [|reflexivity].
  destruct (PixOffset_bounds m x y Hwf Hin) as [H0 H3].
  destruct (PixOffset_bounds m x' y' Hwf Hin') as [H0' H3'].
  pose proof (PixOffset_apart m x y x' y' Hwf Hin Hin' Hne) as Hap.
  rewrite RGBA_Set_PixOffset, RGBA_Set_Pix by exact Hin.
  set (j := image.RGBA_PixOffset m x' y') in *.
  set (i := image.RGBA_PixOffset m x y) in *.
  unfold image.pix_get.
  rewrite !store4_other by lia. reflexivity.
Qed.

(** ** Pixel loops *)

Lemma foldl_bind {A B S : Type} (f : S -> B -> S) (g : A -> list B) (l : list A) (s : S) :
  foldl f s (l ≫= g) = foldl (fun s a => foldl f s (g a)) s l.
Proof.
  revert s. induction l as [|a l IH]; intros s; csimpl; [reflexivity|].
  now rewrite foldl_app, IH.
Qed.

Lemma foldl_pointwise {A S : Type} (f g : S -> A -> S) (l : list A) (s : S) :
  (forall s a, f s a = g s a) -> foldl f s l = foldl g s l.
Proof.
  intros Hfg. revert s. induction l as [|a l IH]; intros s; simpl; [reflexivity|].
  now rewrite Hfg, IH.
Qed.

(** the two nested [for] loops visit the pixels of [scan] *)
Lemma for_range_scan {S : Type} (r : image.Rectangle) (body : Z -> Z -> S -> S) (s : S) :
  for_range (image.Y (image.Min r)) (image.Y (image.Max r)) (fun y =>
    for_range (image.X (image.Min r)) (image.X (image.Max r)) (fun x => body x y)) s
  = foldl (fun s pt => body (fst pt) (snd pt) s) s (scan r).
Proof.
  unfold for_range, scan. rewrite foldl_bind.
  apply foldl_pointwise. intros s' y.
  rewrite foldl_bind. reflexivity.
Qed.

Lemma elem_of_scan r x y :
  (x, y) ∈ scan r <-> image.In x y r = true.
Proof.
  rewrite In_spec. unfold scan. rewrite list_elem_of_bind. split.
  - intros (y' & Hx & Hy). apply list_elem_of_bind in Hx as (x' & Hpt & Hx).
    apply list_elem_of_singleton in Hpt. injection Hpt as -> ->.
    apply elem_of_seqZ in Hx, Hy. lia.
  - intros [Hx Hy]. exists y. split; [|apply elem_of_seqZ; lia].
    apply list_elem_of_bind. exists x. split; [apply list_elem_of_singleton; reflexivity|].
    apply elem_of_seqZ. lia.
Qed.

Lemma NoDup_scan r : NoDup (scan r).
Proof.
  unfold scan. apply NoDup_bind; [| |apply NoDup_seqZ].
  - intros y1 y2 pt _ _ H1 H2.
    apply list_elem_of_bind in H1 as (x1 & E1 & _), H2 as (x2 & E2 & _).
    apply list_elem_of_singleton in E1, E2. congruence.
  - intros y _. apply NoDup_bind; [| |apply NoDup_seqZ].
    + intros x1 x2 pt _ _ E1 E2. apply list_elem_of_singleton in E1, E2. congruence.
    + intros x _. apply NoDup_singleton.
Qed.

Lemma paint_Rect d c pts m : image.RGBA_Rect (paint d c pts m) = image.RGBA_Rect m.
Proof.
  revert m. induction pts as [|pt pts IH]; intros m; [reflexivity|].
  unfold paint in *. simpl. now rewrite IH, RGBA_Set_Rect.
Qed.

Lemma paint_wf d c pts m : wf_RGBA m -> wf_RGBA (paint d c pts m).
Proof.
  revert m. induction pts as [|pt pts IH]; intros m Hwf; [exact Hwf|].
  unfold paint in *. simpl. apply IH, RGBA_Set_wf, Hwf.
Qed.

(** a pixel no visit stores to keeps its sample *)
Lemma paint_untouched d c pts m x y :
  wf_RGBA m -> (x, y) ∉ d <$> pts ->
  image.RGBA_RGBAAt (paint d c pts m) x y = image.RGBA_RGBAAt m x y.
Proof.
  revert m. induction pts as [|pt pts IH]; intros m Hwf Hnot; [reflexivity|].
  rewrite fmap_cons, not_elem_of_cons in Hnot. destruct Hnot as [Hne Hnot].
  unfold paint in *. simpl. rewrite IH by auto using RGBA_Set_wf.
  apply RGBA_Set_get_ne; [exact Hwf|].
  intros E. apply Hne. rewrite <- E. now destruct (d pt).
Qed.

(** a pixel stored to once holds the colour stored, converted by [Set] *)
Lemma paint_stored d c pts m pt :
  wf_RGBA m -> NoDup (d <$> pts) -> pt ∈ pts ->
  image.In (fst (d pt)) (snd (d pt)) (image.RGBA_Rect m) = true ->
  image.RGBA_RGBAAt (paint d c pts m) (fst (d pt)) (snd (d pt)) = color.RGBAModel (c pt).
Proof.
  revert m. induction pts as [|pt' pts IH]; intros m Hwf Hnd Hpt Hin.
  - now apply elem_of_nil in Hpt.
  - rewrite fmap_cons, NoDup_cons in Hnd. destruct Hnd as [Hfresh Hnd].
    change (paint d c (pt' :: pts) m)
      with (paint d c pts (image.RGBA_Set m (fst (d pt')) (snd (d pt')) (c pt'))).
    apply elem_of_cons in Hpt as [-> | Hpt].
    + rewrite paint_untouched; [now apply RGBA_Set_get_eq|now apply RGBA_Set_wf|].
      now destruct (d pt').
    + apply IH; auto using RGBA_Set_wf. now rewrite RGBA_Set_Rect.
Qed.

(** a loop that stores every visited pixel at a place of its own, run on a
    fresh buffer *)
Lemma paint_scan d c r m0 :
  wf_RGBA m0 ->
  (forall x y, image.RGBA_RGBAAt m0 x y = color.mkRGBA 0 0 0 0) ->
  (forall pt pt', pt ∈ scan r -> pt' ∈ scan r -> d pt = d pt' -> pt = pt') ->
  image.RGBA_Rect (paint d c (scan r) m0) = image.RGBA_Rect m0 /\
  (forall pt, pt ∈ scan r ->
     image.In (fst (d pt)) (snd (d pt)) (image.RGBA_Rect m0) = true ->
     image.RGBA_RGBAAt (paint d c (scan r) m0) (fst (d pt)) (snd (d pt))
     = color.RGBAModel (c pt)) /\
  (forall x y, (x, y) ∉ d <$> scan r ->
     image.RGBA_RGBAAt (paint d c (scan r) m0) x y = color.mkRGBA 0 0 0 0).
Proof.
  intros Hwf Hzero Hinj. split; [apply paint_Rect|]. split.
  - intros pt Hpt Hin. apply paint_stored; auto.
    apply NoDup_fmap_2_strong; [|apply NoDup_scan]. auto.
  - intros x y Hnot. rewrite paint_untouched by auto. apply Hzero.
Qed.

Lemma allocatable_grid W H :
  0 <= W < 2 ^ 62 -> 0 <= H < 2 ^ 62 -> 4 * W * H <= maxAlloc -> allocatable (grid W H).
Proof. unfold allocatable, grid, max_int; simpl. lia. Qed.

Lemma allocatable_grid_inv W H :
  allocatable (grid W H) -> 0 <= W <= max_int /\ 0 <= H <= max_int /\ 4 * W * H <= max_int.
Proof. unfold allocatable, grid, maxAlloc, max_int; simpl. lia. Qed.

(** a rectangle that can be allocated can be so turned by a quarter *)
Lemma allocatable_turn r :
  allocatable r ->
  allocatable (grid (image.Y (image.Max r) - image.Y (image.Min r))
                    (image.X (image.Max r) - image.X (image.Min r))).
Proof. unfold allocatable, grid; simpl. lia. Qed.

Lemma In_grid x y W H : image.In x y (grid W H) = true <-> 0 <= x < W /\ 0 <= y < H.
Proof. rewrite In_spec. unfold grid; simpl. lia. Qed.

(** ** The geometric transforms on a grid with its origin at (0, 0) *)

(** [n - 1 - i] does not wrap for an index [i] of a side of length [n] *)
Lemma mirror_exact n i :
  0 <= n <= max_int -> 0 <= i < n -> int_sub (int_sub n 1) i = n - 1 - i.
Proof.
  intros Hn Hi. unfold max_int in Hn.
  rewrite (int_sub_exact n 1) by (unfold min_int, max_int; lia).
  apply int_sub_exact. unfold min_int, max_int; lia.
Qed.

Lemma Rect_grid W H : 0 <= W -> 0 <= H -> image.Rect 0 0 W H = grid W H.
Proof.
  intros HW HH. unfold image.Rect, grid.
  destruct (W <? 0) eqn:E1; [apply Z.ltb_lt in E1; lia|].
  destruct (H <? 0) eqn:E2; [apply Z.ltb_lt in E2; lia|]. reflexivity.
Qed.

(** a loop whose stores are a one-to-one map [d] of the visited pixels onto
    the destination, with inverse [e]: every destination pixel holds the
    colour computed at its preimage *)
Lemma paint_bijection (d e : Z * Z -> Z * Z) c r m0 :
  wf_RGBA m0 ->
  (forall x y, image.RGBA_RGBAAt m0 x y = color.mkRGBA 0 0 0 0) ->
  (forall pt, pt ∈ scan r -> e (d pt) = pt) ->
  (forall x y, image.In x y (image.RGBA_Rect m0) = true ->
     e (x, y) ∈ scan r /\ d (e (x, y)) = (x, y)) ->
  forall x y, image.In x y (image.RGBA_Rect m0) = true ->
    image.RGBA_RGBAAt (paint d c (scan r) m0) x y = color.RGBAModel (c (e (x, y))).
Proof.
  intros Hwf Hzero Hed Hde x y Hin.
  destruct (paint_scan d c r m0 Hwf Hzero) as (_ & Hst & _).
  { intros pt pt' Hpt Hpt' E. rewrite <- (Hed pt Hpt), <- (Hed pt' Hpt'). now rewrite E. }
  destruct (Hde x y Hin) as [Hsc Hdq].
  specialize (Hst (e (x, y)) Hsc). rewrite Hdq in Hst. apply Hst, Hin.
Qed.

(** [Rotate180]: the result has the bounds of the source, and its sample at
    (x, y) is the source sample at (W-1-x, H-1-y) as an [*image.RGBA] holds it *)
Lemma Rotate180_grid p src W H :
  Img p = Some src -> image.Bounds src = grid W H -> allocatable (grid W H) ->
  exists dst, Rotate180 p = Ok (set_Img p dst) /\ image.Bounds dst = grid W H /\
    forall x y, image.In x y (grid W H) = true ->
      image.At dst x y = to8 (image.At src (W - 1 - x) (H - 1 - y)).
Proof.
  intros Himg Hb Halloc.
  destruct (NewRGBA_ok _ Halloc) as (m0 & Hnew & Hrect & Hwf & Hzero).
  destruct (allocatable_grid_inv _ _ Halloc) as (HW & HH & _).
  unfold Rotate180, Img_deref. rewrite Himg. cbn [obind]. rewrite Hb, Hnew. cbn [obind].
  eexists. split; [reflexivity|].
  rewrite (for_range_scan (grid W H)
             (fun x y dst => image.RGBA_Set dst
                (int_sub (int_sub (image.X (image.Max (grid W H))) 1) x)
                (int_sub (int_sub (image.Y (image.Max (grid W H))) 1) y)
                (image.At src x y))).
  set (d := fun pt : Z * Z => (int_sub (int_sub W 1) (fst pt), int_sub (int_sub H 1) (snd pt))).
  set (c := fun pt : Z * Z => image.At src (fst pt) (snd pt)).
  set (e := fun q : Z * Z => (W - 1 - fst q, H - 1 - snd q)).
  change (foldl _ m0 (scan (grid W H))) with (paint d c (scan (grid W H)) m0).
  assert (Hd : forall x y, image.In x y (grid W H) = true -> d (x, y) = (W - 1 - x, H - 1 - y)).
  { intros x y [Hx Hy]%In_grid. unfold d; simpl.
    now rewrite (mirror_exact W x), (mirror_exact H y) by lia. }
  split; [simpl; now rewrite paint_Rect|].
  intros x y Hin. simpl. unfold image.RGBA_At.
  rewrite (paint_bijection d e c (grid W H) m0 Hwf Hzero); [reflexivity| | |now rewrite Hrect].
  - intros [x' y'] Hpt%elem_of_scan. rewrite (Hd _ _ Hpt). unfold e; simpl. f_equal; lia.
  - intros x' y'. rewrite Hrect. intros Hq. apply In_grid in Hq as Hxy.
    assert (Hpre : image.In (W - 1 - x') (H - 1 - y') (grid W H) = true) by (apply In_grid; lia).
    split; [now apply elem_of_scan|].
    unfold e; simpl. rewrite (Hd _ _ Hpre). f_equal; lia.
Qed.

Lemma FlipHorizontal_grid p src W H :
  Img p = Some src -> image.Bounds src = grid W H -> allocatable (grid W H) ->
  exists dst, FlipHorizontal p = Ok (set_Img p dst) /\ image.Bounds dst = grid W H /\
    forall x y, image.In x y (grid W H) = true ->
      image.At dst x y = to8 (image.At src (W - 1 - x) y).
Proof.
  intros Himg Hb Halloc.
  destruct (NewRGBA_ok _ Halloc) as (m0 & Hnew & Hrect & Hwf & Hzero).
  destruct (allocatable_grid_inv _ _ Halloc) as (HW & HH & _).
  unfold FlipHorizontal, Img_deref. rewrite Himg. cbn [obind]. rewrite Hb, Hnew. cbn [obind].
  eexists. split; [reflexivity|].
  rewrite (for_range_scan (grid W H)
             (fun x y dst => image.RGBA_Set dst
                (int_sub (int_sub (image.X (image.Max (grid W H))) 1) x) y
                (image.At src x y))).
  set (d := fun pt : Z * Z => (int_sub (int_sub W 1) (fst pt), snd pt)).
  set (c := fun pt : Z * Z => image.At src (fst pt) (snd pt)).
  set (e := fun q : Z * Z => (W - 1 - fst q, snd q)).
  change (foldl _ m0 (scan (grid W H))) with (paint d c (scan (grid W H)) m0).
  assert (Hd : forall x y, image.In x y (grid W H) = true -> d (x, y) = (W - 1 - x, y)).
  { intros x y [Hx Hy]%In_grid. unfold d; simpl. now rewrite (mirror_exact W x) by lia. }
  split; [simpl; now rewrite paint_Rect|].
  intros x y Hin. simpl. unfold image.RGBA_At.
  rewrite (paint_bijection d e c (grid W H) m0 Hwf Hzero); [reflexivity| | |now rewrite Hrect].
  - intros [x' y'] Hpt%elem_of_scan. rewrite (Hd _ _ Hpt). unfold e; simpl. f_equal; lia.
  - intros x' y'. rewrite Hrect. intros Hq. apply In_grid in Hq as Hxy.
    assert (Hpre : image.In (W - 1 - x') y' (grid W H) = true) by (apply In_grid; lia).
    split; [now apply elem_of_scan|].
    unfold e; simpl. rewrite (Hd _ _ Hpre). f_equal; lia.
Qed.

Lemma FlipVertical_grid p src W H :
  Img p = Some src -> image.Bounds src = grid W H -> allocatable (grid W H) ->
  exists dst, FlipVertical p = Ok (set_Img p dst) /\ image.Bounds dst = grid W H /\
    forall x y, image.In x y (grid W H) = true ->
      image.At dst x y = to8 (image.At src x (H - 1 - y)).
Proof.
  intros Himg Hb Halloc.
  destruct (NewRGBA_ok _ Halloc) as (m0 & Hnew & Hrect & Hwf & Hzero).
  destruct (allocatable_grid_inv _ _ Halloc) as (HW & HH & _).
  unfold FlipVertical, Img_deref. rewrite Himg. cbn [obind]. rewrite Hb, Hnew. cbn [obind].
  eexists. split; [reflexivity|].
  rewrite (for_range_scan (grid W H)
             (fun x y dst => image.RGBA_Set dst
                x (int_sub (int_sub (image.Y (image.Max (grid W H))) 1) y)
                (image.At src x y))).
  set (d := fun pt : Z * Z => (fst pt, int_sub (int_sub H 1) (snd pt))).
  set (c := fun pt : Z * Z => image.At src (fst pt) (snd pt)).
  set (e := fun q : Z * Z => (fst q, H - 1 - snd q)).
  change (foldl _ m0 (scan (grid W H))) with (paint d c (scan (grid W H)) m0).
  assert (Hd : forall x y, image.In x y (grid W H) = true -> d (x, y) = (x, H - 1 - y)).
  { intros x y [Hx Hy]%In_grid. unfold d; simpl. now rewrite (mirror_exact H y) by lia. }
  split; [simpl; now rewrite paint_Rect|].
  intros x y Hin. simpl. unfold image.RGBA_At.
  rewrite (paint_bijection d e c (grid W H) m0 Hwf Hzero); [reflexivity| | |now rewrite Hrect].
  - intros [x' y'] Hpt%elem_of_scan. rewrite (Hd _ _ Hpt). unfold e; simpl. f_equal; lia.
  - intros x' y'. rewrite Hrect. intros Hq. apply In_grid in Hq as Hxy.
    assert (Hpre : image.In x' (H - 1 - y') (grid W H) = true) by (apply In_grid; lia).
    split; [now apply elem_of_scan|].
    unfold e; simpl. rewrite (Hd _ _ Hpre). f_equal; lia.
Qed.

(** [Rotate90]: the result is [H] wide and [W] high, and its sample at
    (x', y') is the source sample at (y', H-1-x') as an [*image.RGBA] holds it *)
Lemma Rotate90_grid p src W H :
  Img p = Some src -> image.Bounds src = grid W H -> allocatable (grid W H) ->
  exists dst, Rotate90 p = Ok (set_Img p dst) /\ image.Bounds dst = grid H W /\
    forall x' y', image.In x' y' (grid H W) = true ->
      image.At dst x' y' = to8 (image.At src y' (H - 1 - x')).
Proof.
  intros Himg Hb Halloc.
  destruct (allocatable_grid_inv _ _ Halloc) as (HW & HH & Hsz).
  assert (Halloc' : allocatable (grid H W))
    by (revert Halloc; unfold allocatable, grid; simpl; lia).
  destruct (NewRGBA_ok _ Halloc') as (m0 & Hnew & Hrect & Hwf & Hzero).
  unfold Rotate90, Img_deref. rewrite Himg. cbn [obind]. rewrite Hb.
  assert (Enb : image.Rect 0 0 (image.Dy (grid W H)) (image.Dx (grid W H)) = grid H W).
  { rewrite Dx_exact, Dy_exact by (unfold grid; simpl; lia).
    unfold grid at 1 2 3 4; simpl. rewrite !Z.sub_0_r. apply Rect_grid; lia. }
  rewrite Enb, Hnew. cbn [obind].
  eexists. split; [reflexivity|].
  rewrite (for_range_scan (grid W H)
             (fun x y dst => image.RGBA_Set dst
                (int_sub (int_sub (image.Y (image.Max (grid W H))) 1) y) x
                (image.At src x y))).
  set (d := fun pt : Z * Z => (int_sub (int_sub H 1) (snd pt), fst pt)).
  set (c := fun pt : Z * Z => image.At src (fst pt) (snd pt)).
  set (e := fun q : Z * Z => (snd q, H - 1 - fst q)).
  change (foldl _ m0 (scan (grid W H))) with (paint d c (scan (grid W H)) m0).
  assert (Hd : forall x y, image.In x y (grid W H) = true -> d (x, y) = (H - 1 - y, x)).
  { intros x y [Hx Hy]%In_grid. unfold d; simpl. now rewrite (mirror_exact H y) by lia. }
  split; [simpl; now rewrite paint_Rect|].
  intros x y Hin. simpl. unfold image.RGBA_At.
  rewrite (paint_bijection d e c (grid W H) m0 Hwf Hzero); [reflexivity| | |now rewrite Hrect].
  - intros [x' y'] Hpt%elem_of_scan. rewrite (Hd _ _ Hpt). unfold e; simpl. f_equal; lia.
  - intros x' y'. rewrite Hrect. intros Hq. apply In_grid in Hq as Hxy.
    assert (Hpre : image.In y' (H - 1 - x') (grid W H) = true) by (apply In_grid; lia).
    split; [now apply elem_of_scan|].
    unfold e; simpl. rewrite (Hd _ _ Hpre). f_equal; lia.
Qed.

(** ** Quality *)

(** C6: for every integer [q], [SetQuality(q)] leaves the stored quality in
    [1, 100] (it stores [q] clamped to that range); [SetQuality(0)] behaves
    as [SetQuality(1)] and stores 1, [SetQuality(150)] behaves as
    [SetQuality(100)] and stores 100; a processor fresh from [NewProcessor]
    has quality 90. *)
Theorem C6_quality_clamp :
  (forall q p, 1 <= Quality (SetQuality q p) <= 100) /\
  (forall q p, Quality (SetQuality q p) = clamp q 1 100) /\
  (forall p, SetQuality 0 p = SetQuality 1 p /\ Quality (SetQuality 0 p) = 1) /\
  (forall p, SetQuality 150 p = SetQuality 100 p /\ Quality (SetQuality 150 p) = 100) /\
  (forall img, Quality (NewProcessor img) = 90).
Proof.
  assert (Hclamp : forall q p, Quality (SetQuality q p) = clamp q 1 100).
  { intros q p. unfold SetQuality, clamp; simpl.
    destruct (q <? 1) eqn:E1; [apply Z.ltb_lt in E1|apply Z.ltb_ge in E1].
    - simpl. lia.
    - destruct (100 <? q) eqn:E2; [apply Z.ltb_lt in E2|apply Z.ltb_ge in E2]; lia. }
  split; [|split; [exact Hclamp|]].
  - intros q p. rewrite Hclamp. unfold clamp. lia.
  - repeat split; reflexivity.
Qed.

(** ** Brightness *)

(** the closure without fusing computes the integer formula: checked on
    every percentage of [-100, 100] and every byte *)
Lemma adjust_table :
  forallb (fun pct =>
    forallb (fun v =>
      @adjust plain_libs (PrimFloat.div (float64_of_int pct) 100%float) v
      =? clamp (v + 255 * pct / 100) 0 255) (seqZ 0 256)) (seqZ (-100) 201) = true.
Proof. vm_compute. reflexivity. Qed.

(** with the multiplication and the addition fused it computes the formula
    or one less, and one less at the percentages -20, -40 and -80 only *)
Lemma adjust_table_fused :
  forallb (fun pct =>
    forallb (fun v =>
      let a := @adjust fused_libs (PrimFloat.div (float64_of_int pct) 100%float) v in
      let f := clamp (v + 255 * pct / 100) 0 255 in
      (a =? f) || ((a =? f - 1) && ((pct =? -20) || (pct =? -40) || (pct =? -80))))
      (seqZ 0 256)) (seqZ (-100) 201) = true.
Proof. vm_compute. reflexivity. Qed.


Lemma percentage_clamp pct :
  (let percentage := if pct <? -100 then -100 else pct in
   if 100 <? percentage then 100 else percentage) = clamp pct (-100) 100.
Proof.
  unfold clamp. cbv zeta.
  destruct (pct <? -100) eqn:E1; [apply Z.ltb_lt in E1|apply Z.ltb_ge in E1].
  - simpl. lia.
  - destruct (100 <? pct) eqn:E2; [apply Z.ltb_lt in E2|apply Z.ltb_ge in E2]; lia.
Qed.

Section BrightnessFormula.

Context `{libs : ExtLibs}.

Lemma adjust_byte scale v : 0 <= adjust scale v < 256.
Proof.
  unfold adjust.
  destruct (PrimFloat.ltb 255 _); [lia|].
  destruct (PrimFloat.ltb _ 0); [lia|].
  destruct (float64_trunc _); [apply uint8_range|lia].
Qed.

(** the closure depends on the platform through the fusing only *)
Lemma adjust_mode scale v :
  adjust scale v =
  if float64_fused then @adjust fused_libs scale v else @adjust plain_libs scale v.
Proof. unfold adjust. destruct float64_fused; reflexivity. Qed.

Lemma adjust_near pct v :
  -100 <= pct <= 100 -> 0 <= v < 256 ->
  adjust (PrimFloat.div (float64_of_int pct) 100%float) v = clamp (v + 255 * pct / 100) 0 255 \/
  (float64_fused = true /\ (pct = -20 \/ pct = -40 \/ pct = -80) /\
   adjust (PrimFloat.div (float64_of_int pct) 100%float) v
   = clamp (v + 255 * pct / 100) 0 255 - 1).
Proof.
  intros Hp Hv. rewrite adjust_mode.
  assert (Hpin : In pct (seqZ (-100) 201)) by (apply list_elem_of_In, elem_of_seqZ; lia).
  assert (Hvin : In v (seqZ 0 256)) by (apply list_elem_of_In, elem_of_seqZ; lia).
  destruct float64_fused.
  - pose proof adjust_table_fused as T. rewrite forallb_forall in T.
    specialize (T pct Hpin). rewrite forallb_forall in T. specialize (T v Hvin).
    cbv zeta in T. apply orb_true_iff in T as [T%Z.eqb_eq | T]; [now left|right].
    apply andb_true_iff in T as [T%Z.eqb_eq K]. split; [reflexivity|]. split; [|exact T].
    apply orb_true_iff in K as [K|K%Z.eqb_eq]; [|now right; right].
    apply orb_true_iff in K as [K%Z.eqb_eq|K%Z.eqb_eq]; [now left|now right; left].
  - left. pose proof adjust_table as T. rewrite forallb_forall in T.
    specialize (T pct Hpin). rewrite forallb_forall in T. now apply Z.eqb_eq, T.
Qed.

Lemma adjust_spec pct v :
  -100 <= pct <= 100 -> 0 <= v < 256 ->
  float64_fused = false \/ (pct <> -20 /\ pct <> -40 /\ pct <> -80) ->
  adjust (PrimFloat.div (float64_of_int pct) 100%float) v = clamp (v + 255 * pct / 100) 0 255.
Proof.
  intros Hp Hv Hex. destruct (adjust_near pct v Hp Hv) as [E|(Hf & Hk & _)]; [exact E|].
  destruct Hex as [Hu|Hn]; [congruence|lia].
Qed.



(** the colour [Brightness] stores for a source colour, at a clamped
    percentage [k]: the closure on the three colour channels *)
Lemma Brightness_run pct p src :
  Img p = Some src -> allocatable (image.Bounds src) ->
  exists dst, Brightness pct p = Ok (set_Img p dst) /\
    image.Bounds dst = image.Bounds src /\
    forall x y, image.In x y (image.Bounds src) = true ->
      let scale := PrimFloat.div (float64_of_int (clamp pct (-100) 100)) 100%float in
      let v := channels8 (image.At src x y) in
      image.At dst x y =
      color.RGBA_RGBA (color.mkRGBA (adjust scale (color.R v)) (adjust scale (color.G v))
                                    (adjust scale (color.B v)) (color.A v)).
Proof.
  intros Himg Halloc.
  destruct (NewRGBA_ok _ Halloc) as (m0 & Hnew & Hrect & Hwf & Hzero).
  unfold Brightness, Img_deref. rewrite Himg. cbn [obind]. rewrite Hnew. cbn [obind].
  eexists. split; [reflexivity|].
  pose proof (percentage_clamp pct) as Hk. cbv zeta in Hk. rewrite Hk. clear Hk.
  set (k := clamp pct (-100) 100).
  set (scale := PrimFloat.div (float64_of_int k) 100%float).
  set (c := fun pt : Z * Z =>
    color.RGBA_RGBA
      (color.mkRGBA (adjust scale (uint8 (Z.shiftr (color.cR (image.At src (fst pt) (snd pt))) 8)))
                    (adjust scale (uint8 (Z.shiftr (color.cG (image.At src (fst pt) (snd pt))) 8)))
                    (adjust scale (uint8 (Z.shiftr (color.cB (image.At src (fst pt) (snd pt))) 8)))
                    (uint8 (Z.shiftr (color.cA (image.At src (fst pt) (snd pt))) 8)))).
  rewrite (for_range_scan (image.Bounds src)
             (fun x y dst => image.RGBA_Set dst x y (c (x, y)))).
  change (foldl _ m0 (scan (image.Bounds src)))
    with (paint (fun pt => pt) c (scan (image.Bounds src)) m0).
  split; [simpl; now rewrite paint_Rect|].
  intros x y Hin. simpl. unfold image.RGBA_At.
  rewrite (paint_bijection (fun pt => pt) (fun q => q) c (image.Bounds src) m0 Hwf Hzero);
    [| reflexivity | | now rewrite Hrect].
  - unfold c. cbn [fst snd].
    rewrite RGBAModel_RGBA
      by (unfold is8; cbn; auto using adjust_byte, uint8_range).
    reflexivity.
  - intros x' y'. rewrite Hrect. intros Hq. split; [now apply elem_of_scan|reflexivity].
Qed.

(** C3 (amended): [Brightness] first clamps the percentage to a [k] of
    [-100, 100]; then, at every in-bounds pixel, the alpha value is stored
    unchanged and each of the red, green and blue channel values [v] in
    [0, 255] of the source becomes [clamp(v + 255 * k / 100, 0, 255)] (the
    quotient rounded down) where the sum [float64(v) + 255.0*scale] is
    rounded twice, and on every platform when [k] is none of -20, -40 and
    -80; where the platform fuses the multiplication and the addition, the
    value stored at these three percentages is that one or one less, and
    never below 0.  On every platform [Brightness(0)] stores every channel
    value unchanged, a percentage of 100 or more stores 255 in the three
    colour channels, and one of -100 or less stores 0. *)
Theorem C3_brightness_formula pct p src :
  Img p = Some src -> allocatable (image.Bounds src) ->
  exists dst, Brightness pct p = Ok (set_Img p dst) /\
    image.Bounds dst = image.Bounds src /\
    forall x y, image.In x y (image.Bounds src) = true ->
      let k := clamp pct (-100) 100 in
      let v := channels8 (image.At src x y) in
      let f := fun c => clamp (c + 255 * k / 100) 0 255 in
      exists r g b,
        image.At dst x y = color.RGBA_RGBA (color.mkRGBA r g b (color.A v)) /\
        (float64_fused = false \/ (k <> -20 /\ k <> -40 /\ k <> -80) ->
           r = f (color.R v) /\ g = f (color.G v) /\ b = f (color.B v)) /\
        (Z.max 0 (f (color.R v) - 1) <= r <= f (color.R v) /\
         Z.max 0 (f (color.G v) - 1) <= g <= f (color.G v) /\
         Z.max 0 (f (color.B v) - 1) <= b <= f (color.B v)) /\
        (pct = 0 -> image.At dst x y = color.RGBA_RGBA v) /\
        (100 <= pct ->
           image.At dst x y = color.RGBA_RGBA (color.mkRGBA 255 255 255 (color.A v))) /\
        (pct <= -100 ->
           image.At dst x y = color.RGBA_RGBA (color.mkRGBA 0 0 0 (color.A v))).
Proof.
  intros Himg Halloc.
  destruct (Brightness_run pct p src Himg Halloc) as (dst & Hrun & Hb & Hpx).
  exists dst. split; [exact Hrun|]. split; [exact Hb|].
  intros x y Hin k v f. specialize (Hpx x y Hin). cbv zeta in Hpx. fold k v in Hpx.
  destruct (RGBAModel_is8 (image.At src x y)) as (Hr & Hg & Hbb & Ha).
  fold (channels8 (image.At src x y)) in Hr, Hg, Hbb, Ha. fold v in Hr, Hg, Hbb, Ha.
  assert (Hk : -100 <= k <= 100) by (unfold k, clamp; lia).
  set (scale := PrimFloat.div (float64_of_int k) 100%float) in *.
  assert (Hexact : float64_fused = false \/ (k <> -20 /\ k <> -40 /\ k <> -80) ->
            adjust scale (color.R v) = f (color.R v) /\
            adjust scale (color.G v) = f (color.G v) /\
            adjust scale (color.B v) = f (color.B v)).
  { intros Hex. unfold scale, f. now rewrite !adjust_spec by assumption. }
  assert (Hnear : forall c, 0 <= c < 256 -> Z.max 0 (f c - 1) <= adjust scale c <= f c).
  { intros c Hc. pose proof (adjust_byte scale c) as Hbyte.
    destruct (adjust_near k c Hk Hc) as [E|(_ & _ & E)];
      fold scale in E; fold (f c) in E; unfold f, clamp in *; lia. }
  exists (adjust scale (color.R v)), (adjust scale (color.G v)), (adjust scale (color.B v)).
  split; [exact Hpx|]. split; [exact Hexact|].
  split; [repeat split; apply Hnear; assumption|].
  rewrite Hpx. repeat split.
  - intros ->. destruct Hexact as (-> & -> & ->); [right; unfold k, clamp; lia|].
    unfold f. replace k with 0 by reflexivity. change (255 * 0 / 100) with 0.
    unfold clamp. rewrite !Z.add_0_r.
    rewrite !Z.min_r, !Z.max_r by lia. now destruct v.
  - intros Hp. destruct Hexact as (-> & -> & ->); [right; unfold k, clamp; lia|].
    unfold f. replace k with 100 by (unfold k, clamp; lia).
    change (255 * 100 / 100) with 255. unfold clamp.
    do 3 f_equal; lia.
  - intros Hp. destruct Hexact as (-> & -> & ->); [right; unfold k, clamp; lia|].
    unfold f. replace k with (-100) by (unfold k, clamp; lia).
    change (255 * -100 / 100) with (-255). unfold clamp.
    do 3 f_equal; lia.
Qed.

End BrightnessFormula.

Lemma sample3x2_allocatable : allocatable (image.Bounds sample3x2).
Proof. unfold allocatable, maxAlloc, max_int; simpl. lia. Defined.

Lemma C3_brightness_formula_witness :
  exists dst, @Brightness plain_libs 150 (NewProcessor (Some sample3x2))
              = Ok (set_Img (NewProcessor (Some sample3x2)) dst) /\
    image.Bounds dst = image.Bounds sample3x2 /\
    forall x y, image.In x y (image.Bounds sample3x2) = true ->
      let k := clamp 150 (-100) 100 in
      let v := channels8 (image.At sample3x2 x y) in
      let f := fun c => clamp (c + 255 * k / 100) 0 255 in
      exists r g b,
        image.At dst x y = color.RGBA_RGBA (color.mkRGBA r g b (color.A v)) /\
        (@float64_fused plain_libs = false \/ (k <> -20 /\ k <> -40 /\ k <> -80) ->
           r = f (color.R v) /\ g = f (color.G v) /\ b = f (color.B v)) /\
        (Z.max 0 (f (color.R v) - 1) <= r <= f (color.R v) /\
         Z.max 0 (f (color.G v) - 1) <= g <= f (color.G v) /\
         Z.max 0 (f (color.B v) - 1) <= b <= f (color.B v)) /\
        (150 = 0 -> image.At dst x y = color.RGBA_RGBA v) /\
        (100 <= 150 ->
           image.At dst x y = color.RGBA_RGBA (color.mkRGBA 255 255 255 (color.A v))) /\
        (150 <= -100 ->
           image.At dst x y = color.RGBA_RGBA (color.mkRGBA 0 0 0 (color.A v))).
Proof.
  apply (@C3_brightness_formula plain_libs 150 (NewProcessor (Some sample3x2)) sample3x2).
  - reflexivity.
  - exact sample3x2_allocatable.
Defined.

(** C3 as stated fails where the compiler fuses [float64(val) + 255.0*scale]
    into one rounding: at -20 percent a red value of 52 becomes 0, where
    [clamp(52 + 255 * (-20)/100, 0, 255)] is 1. *)
Lemma C3_counterexample :
  exists dst, @Brightness fused_libs (-20) (NewProcessor (Some red52))
              = Ok (set_Img (NewProcessor (Some red52)) dst) /\
    image.In 0 0 (image.Bounds red52) = true /\
    color.R (channels8 (image.At red52 0 0)) = 52 /\
    clamp (52 + 255 * (-20) / 100) 0 255 = 1 /\
    color.R (channels8 (image.At dst 0 0)) = 0 /\
    color.R (channels8 (image.At dst 0 0)) <> clamp (52 + 255 * (-20) / 100) 0 255.
Proof.
  eexists. split; [reflexivity|]. vm_compute. repeat split; discriminate.
Qed.

(** ** Involutions: [Rotate180], [FlipHorizontal], [FlipVertical] *)

Lemma set_Img_set_Img p a b : set_Img (set_Img p a) b = set_Img p b.
Proof. reflexivity. Qed.

(** a transform that mirrors coordinates by [f], applied twice *)
Lemma mirror_twice (T : Processor -> outcome Processor) (f : Z * Z -> Z * Z) W H :
  (forall p src, Img p = Some src -> image.Bounds src = grid W H ->
     exists dst, T p = Ok (set_Img p dst) /\ image.Bounds dst = grid W H /\
       forall x y, image.In x y (grid W H) = true ->
         image.At dst x y = to8 (image.At src (fst (f (x, y))) (snd (f (x, y))))) ->
  (forall x y, image.In x y (grid W H) = true ->
     image.In (fst (f (x, y))) (snd (f (x, y))) (grid W H) = true /\ f (f (x, y)) = (x, y)) ->
  forall p src, Img p = Some src -> image.Bounds src = grid W H ->
    exists dst, times 2 T p = Ok (set_Img p dst) /\ image.Bounds dst = grid W H /\
      forall x y, image.In x y (grid W H) = true -> image.At dst x y = to8 (image.At src x y).
Proof.
  intros HT Hf p src Himg Hb.
  destruct (HT p src Himg Hb) as (d1 & E1 & B1 & P1).
  destruct (HT (set_Img p d1) d1 eq_refl B1) as (d2 & E2 & B2 & P2).
  exists d2. split; [|split; [exact B2|]].
  - simpl. rewrite E1. cbn [obind]. rewrite E2. cbn [obind]. now rewrite set_Img_set_Img.
  - intros x y Hin. destruct (Hf x y Hin) as [Hin' Hff].
    rewrite (P2 x y Hin), (P1 _ _ Hin').
    rewrite <- surjective_pairing, Hff. apply to8_idem.
Qed.

(** C7 (amended): on a grid with its origin at (0, 0), two [Rotate180], two
    [FlipHorizontal] or two [FlipVertical] give a grid with the original
    bounds whose sample at every coordinate is the original sample as an
    [*image.RGBA] holds it (8 bits a channel, alpha-premultiplied); where
    the original sample is already of that form it is reproduced exactly. *)
Theorem C7_involution_to8 p src W H :
  Img p = Some src -> image.Bounds src = grid W H -> allocatable (grid W H) ->
  forall T, T = Rotate180 \/ T = FlipHorizontal \/ T = FlipVertical ->
    exists dst, times 2 T p = Ok (set_Img p dst) /\ image.Bounds dst = grid W H /\
      forall x y, image.In x y (grid W H) = true ->
        image.At dst x y = to8 (image.At src x y) /\
        (to8 (image.At src x y) = image.At src x y -> image.At dst x y = image.At src x y).
Proof.
  intros Himg Hb Halloc T HT.
  assert (Hgoal : exists dst, times 2 T p = Ok (set_Img p dst) /\ image.Bounds dst = grid W H /\
            forall x y, image.In x y (grid W H) = true ->
              image.At dst x y = to8 (image.At src x y)).
  { destruct HT as [-> | [-> | ->]].
    - apply (mirror_twice Rotate180 (fun q => (W - 1 - fst q, H - 1 - snd q)) W H); auto.
      + intros p' src' Hi' Hb'. apply Rotate180_grid; auto.
      + intros x y Hin%In_grid. simpl. split; [apply In_grid; lia|f_equal; lia].
    - apply (mirror_twice FlipHorizontal (fun q => (W - 1 - fst q, snd q)) W H); auto.
      + intros p' src' Hi' Hb'. apply FlipHorizontal_grid; auto.
      + intros x y Hin%In_grid. simpl. split; [apply In_grid; lia|f_equal; lia].
    - apply (mirror_twice FlipVertical (fun q => (fst q, H - 1 - snd q)) W H); auto.
      + intros p' src' Hi' Hb'. apply FlipVertical_grid; auto.
      + intros x y Hin%In_grid. simpl. split; [apply In_grid; lia|f_equal; lia]. }
  destruct Hgoal as (dst & E & B & P). exists dst. split; [exact E|]. split; [exact B|].
  intros x y Hin. split; [now apply P|]. intros H8. now rewrite P.
Qed.

Lemma C7_involution_to8_witness :
  exists dst, times 2 Rotate180 (NewProcessor (Some sample3x2))
              = Ok (set_Img (NewProcessor (Some sample3x2)) dst) /\
    image.Bounds dst = grid 3 2 /\
    forall x y, image.In x y (grid 3 2) = true ->
      image.At dst x y = to8 (image.At sample3x2 x y) /\
      (to8 (image.At sample3x2 x y) = image.At sample3x2 x y ->
       image.At dst x y = image.At sample3x2 x y).
Proof.
  apply (C7_involution_to8 (NewProcessor (Some sample3x2)) sample3x2 3 2).
  - reflexivity.
  - reflexivity.
  - exact sample3x2_allocatable.
  - left. reflexivity.
Defined.

(** C7 as stated fails on a sample that is not 8-bit: the one pixel of
    [deep1x1] has red 0x1234 and comes back from two [Rotate180] (and from
    two flips) as 0x1212. *)
Lemma C7_counterexample :
  image.At deep1x1 0 0 = color.mkColor 4660 0 0 65535 /\
  result_Bounds (times 2 Rotate180 (NewProcessor (Some deep1x1))) = Some (grid 1 1) /\
  result_At (times 2 Rotate180 (NewProcessor (Some deep1x1))) 0 0
    = Some (color.mkColor 4626 0 0 65535) /\
  result_At (times 2 FlipHorizontal (NewProcessor (Some deep1x1))) 0 0
    = Some (color.mkColor 4626 0 0 65535) /\
  result_At (times 2 FlipVertical (NewProcessor (Some deep1x1))) 0 0
    = Some (color.mkColor 4626 0 0 65535) /\
  result_At (times 2 Rotate180 (NewProcessor (Some deep1x1))) 0 0
    <> Some (image.At deep1x1 0 0).
Proof. vm_compute. repeat split; try reflexivity. discriminate. Qed.

(** The origin matters: the loops mirror with [Max.X-1-x], which is the
    mirrored column only when [Min.X] is 0.  On the two pixels of
    [shifted2x1], whose bounds start at (1, 0), [Rotate180] stores column 1
    onto itself and column 2 out of bounds, so that (2, 0) stays
    transparent. *)
Example Rotate180_shifted_origin :
  result_Bounds (Rotate180 (NewProcessor (Some shifted2x1)))
    = Some (image.Bounds shifted2x1) /\
  result_At (Rotate180 (NewProcessor (Some shifted2x1))) 1 0
    = Some (image.At shifted2x1 1 0) /\
  result_At (Rotate180 (NewProcessor (Some shifted2x1))) 2 0
    = Some (color.mkColor 0 0 0 0).
Proof. vm_compute. repeat split; reflexivity. Qed.

(** ** [Rotate90] *)

Lemma allocatable_swap W H : allocatable (grid W H) -> allocatable (grid H W).
Proof.
  unfold allocatable, grid; simpl. lia.
Qed.

(** two quarter turns are a half turn *)
Lemma Rotate90_twice p src W H :
  Img p = Some src -> image.Bounds src = grid W H -> allocatable (grid W H) ->
  exists dst, times 2 Rotate90 p = Ok (set_Img p dst) /\ image.Bounds dst = grid W H /\
    forall x y, image.In x y (grid W H) = true ->
      image.At dst x y = to8 (image.At src (W - 1 - x) (H - 1 - y)).
Proof.
  intros Himg Hb Halloc.
  destruct (Rotate90_grid p src W H Himg Hb Halloc) as (d1 & E1 & B1 & P1).
  destruct (Rotate90_grid (set_Img p d1) d1 H W eq_refl B1 (allocatable_swap _ _ Halloc))
    as (d2 & E2 & B2 & P2).
  exists d2. split; [|split; [exact B2|]].
  - simpl. rewrite E1. cbn [obind]. rewrite E2. cbn [obind]. now rewrite set_Img_set_Img.
  - intros x y Hin. apply In_grid in Hin as Hxy.
    rewrite (P2 x y Hin), P1 by (apply In_grid; lia).
    rewrite to8_idem. do 2 f_equal.
Qed.

Lemma times_add n m f p :
  times (n + m) f p = (p' <~ times n f p ;; times m f p').
Proof.
  revert p. induction n as [|n IH]; intros p; simpl; [reflexivity|].
  destruct (f p); simpl; auto.
Qed.

(** C8 (amended): on a [W] by [H] grid with its origin at (0, 0), [Rotate90]
    gives an [H] by [W] grid whose sample at (H-1-y, x) is the source sample
    at (x, y) as an [*image.RGBA] holds it (8 bits a channel), for every
    in-bounds (x, y); four [Rotate90] give a grid with the original bounds
    and, at every coordinate, the original sample in that form -- exactly
    the original sample where it already is 8-bit. *)
Theorem C8_rotate90_to8 p src W H :
  Img p = Some src -> image.Bounds src = grid W H -> allocatable (grid W H) ->
  (exists dst, Rotate90 p = Ok (set_Img p dst) /\ image.Bounds dst = grid H W /\
     forall x y, image.In x y (grid W H) = true ->
       image.In (H - 1 - y) x (grid H W) = true /\
       image.At dst (H - 1 - y) x = to8 (image.At src x y) /\
       (to8 (image.At src x y) = image.At src x y ->
        image.At dst (H - 1 - y) x = image.At src x y)) /\
  (exists dst, times 4 Rotate90 p = Ok (set_Img p dst) /\ image.Bounds dst = grid W H /\
     forall x y, image.In x y (grid W H) = true ->
       image.At dst x y = to8 (image.At src x y) /\
       (to8 (image.At src x y) = image.At src x y -> image.At dst x y = image.At src x y)).
Proof.
  intros Himg Hb Halloc. split.
  - destruct (Rotate90_grid p src W H Himg Hb Halloc) as (dst & E & B & P).
    exists dst. split; [exact E|]. split; [exact B|].
    intros x y Hin. apply In_grid in Hin as Hxy.
    assert (Hin' : image.In (H - 1 - y) x (grid H W) = true) by (apply In_grid; lia).
    assert (Hat : image.At dst (H - 1 - y) x = to8 (image.At src x y)).
    { rewrite (P _ _ Hin'). do 2 f_equal. lia. }
    split; [exact Hin'|]. split; [exact Hat|]. intros H8. now rewrite Hat.
  - destruct (Rotate90_twice p src W H Himg Hb Halloc) as (d2 & E2 & B2 & P2).
    destruct (Rotate90_twice (set_Img p d2) d2 W H eq_refl B2 Halloc) as (d4 & E4 & B4 & P4).
    exists d4. split; [|split; [exact B4|]].
    + change 4%nat with (2 + 2)%nat. rewrite times_add, E2. cbn [obind].
      rewrite E4. now rewrite set_Img_set_Img.
    + intros x y Hin. apply In_grid in Hin as Hxy.
      assert (Hat : image.At d4 x y = to8 (image.At src x y)).
      { rewrite (P4 x y Hin), P2 by (apply In_grid; lia).
        rewrite to8_idem. do 2 f_equal; lia. }
      split; [exact Hat|]. intros H8. now rewrite Hat.
Qed.

Lemma C8_rotate90_to8_witness :
  (exists dst, Rotate90 (NewProcessor (Some sample3x2))
               = Ok (set_Img (NewProcessor (Some sample3x2)) dst) /\
     image.Bounds dst = grid 2 3 /\
     forall x y, image.In x y (grid 3 2) = true ->
       image.In (2 - 1 - y) x (grid 2 3) = true /\
       image.At dst (2 - 1 - y) x = to8 (image.At sample3x2 x y) /\
       (to8 (image.At sample3x2 x y) = image.At sample3x2 x y ->
        image.At dst (2 - 1 - y) x = image.At sample3x2 x y)) /\
  (exists dst, times 4 Rotate90 (NewProcessor (Some sample3x2))
               = Ok (set_Img (NewProcessor (Some sample3x2)) dst) /\
     image.Bounds dst = grid 3 2 /\
     forall x y, image.In x y (grid 3 2) = true ->
       image.At dst x y = to8 (image.At sample3x2 x y) /\
       (to8 (image.At sample3x2 x y) = image.At sample3x2 x y ->
        image.At dst x y = image.At sample3x2 x y)).
Proof.
  apply (C8_rotate90_to8 (NewProcessor (Some sample3x2)) sample3x2 3 2).
  - reflexivity.
  - reflexivity.
  - exact sample3x2_allocatable.
Defined.

(** C8 as stated fails on a sample that is not 8-bit: the pixel of
    [deep1x1], red 0x1234, is stored by [Rotate90] at (H-1-0, 0) = (0, 0) as
    0x1212, and four [Rotate90] return 0x1212 as well. *)
Lemma C8_counterexample :
  image.At deep1x1 0 0 = color.mkColor 4660 0 0 65535 /\
  result_Bounds (Rotate90 (NewProcessor (Some deep1x1))) = Some (grid 1 1) /\
  result_At (Rotate90 (NewProcessor (Some deep1x1))) (1 - 1 - 0) 0
    = Some (color.mkColor 4626 0 0 65535) /\
  result_At (times 4 Rotate90 (NewProcessor (Some deep1x1))) 0 0
    = Some (color.mkColor 4626 0 0 65535) /\
  result_At (Rotate90 (NewProcessor (Some deep1x1))) (1 - 1 - 0) 0
    <> Some (image.At deep1x1 0 0).
Proof. vm_compute. repeat split; try reflexivity. discriminate. Qed.

(** ** Format dispatch and the terminal operations *)

(** a file that [os.Create] made is there, and empty *)
Lemma os_Create_inr fs path fs1 :
  os_Create fs path = inr fs1 -> fs1 = <[path := File []]> fs.
Proof.
  unfold os_Create. destruct (split_path path) as [dir name].
  destruct (parent_node fs dir) as [[content|]|]; try discriminate.
  destruct (path =? "")%string; [discriminate|].
  destruct (name =? "")%string; [discriminate|].
  destruct (fs !! path) as [[content|]|]; try discriminate; now intros [= <-].
Qed.

Section Terminal.

Context `{libs : ExtLibs}.

Lemma select_codec_unsupported p tag : supported tag = false -> select_codec p tag = None.
Proof.
  unfold supported. intros Hn%bool_decide_eq_false. unfold select_codec.
  repeat match goal with
  | |- context [String.eqb tag ?s] =>
      destruct (String.eqb_spec tag s) as [->|?];
        [exfalso; apply Hn; rewrite !elem_of_cons; tauto|]
  end.
  reflexivity.
Qed.

Lemma select_codec_supported p tag :
  supported tag = true -> exists call, select_codec p tag = Some call.
Proof.
  unfold supported. intros Hy%bool_decide_eq_true. unfold select_codec.
  repeat match goal with
  | |- context [String.eqb tag ?s] =>
      destruct (String.eqb_spec tag s) as [->|?]; [simpl; eauto|]
  end.
  exfalso.
  repeat (apply elem_of_cons in Hy as [->|Hy]; [congruence|]).
  now apply elem_of_nil in Hy.
Qed.

Lemma Save_format_empty p path : Save_format p path = "" -> TargetFormat p = "".
Proof.
  unfold Save_format. destruct (String.eqb_spec (TargetFormat p) ""); congruence.
Qed.

(** what [Encode] switches on when [Save] calls it *)
Lemma Encode_requested_Save p path :
  (if (Save_format p path =? "")%string then TargetFormat p else Save_format p path)
  = Save_format p path.
Proof.
  destruct (String.eqb_spec (Save_format p path) "") as [E|_]; [|reflexivity].
  now rewrite (Save_format_empty p path E), E.
Qed.

Lemma Encode_unsupported p w format :
  supported (normalize (if (format =? "")%string then TargetFormat p else format)) = false ->
  Encode p w format =
  (w, Err (ErrUnsupportedFormat
             (normalize (if (format =? "")%string then TargetFormat p else format)))).
Proof. intros Hu. unfold Encode. cbv zeta. now rewrite (select_codec_unsupported p _ Hu). Qed.

Lemma Encode_supported p w format call :
  select_codec p (normalize (if (format =? "")%string then TargetFormat p else format))
    = Some call ->
  Encode p w format = (w ++ fst (codec_Encode call (Img p)), snd (codec_Encode call (Img p))).
Proof.
  intros Hs. unfold Encode. cbv zeta. rewrite Hs. now destruct (codec_Encode call (Img p)).
Qed.

(** C1 (amended): a requested format whose normalised tag is not one of
    jpg, jpeg, png, gif, bmp, tiff, tif makes [Encode] and [ToBytes] fail
    with the "unsupported format" error and write no byte.  [Save] has
    created or truncated the destination before the format is looked at: it
    fails with the same error and leaves the destination an empty file;
    when the file cannot be created it fails with "failed to create file"
    and the file system is as it was. *)
Theorem C1_unsupported_format p :
  (forall w format,
     let requested := if (format =? "")%string then TargetFormat p else format in
     supported (normalize requested) = false ->
     Encode p w format = (w, Err (ErrUnsupportedFormat (normalize requested)))) /\
  (forall format,
     let requested := if (format =? "")%string then TargetFormat p else format in
     requested <> ""%string ->
     supported (normalize requested) = false ->
     ToBytes p format = Err (ErrUnsupportedFormat (normalize requested))) /\
  (forall path fs,
     supported (normalize (Save_format p path)) = false ->
     match os_Create fs path with
     | inl cause => Save p path fs = (fs, Err (ErrCreateFile cause))
     | inr _ =>
         Save p path fs =
         (<[path := File []]> fs, Err (ErrUnsupportedFormat (normalize (Save_format p path))))
     end).
Proof.
  split; [|split].
  - intros w format requested Hu. now apply Encode_unsupported.
  - intros format requested Hne Hu. unfold ToBytes. fold requested.
    destruct (String.eqb_spec requested "") as [E|_]; [contradiction|].
    assert (Er : (if (requested =? "")%string then TargetFormat p else requested) = requested).
    { destruct (String.eqb_spec requested ""); [contradiction|reflexivity]. }
    rewrite (Encode_unsupported p [] requested) by (now rewrite Er).
    now rewrite Er.
  - intros path fs Hu. unfold Save.
    destruct (os_Create fs path) as [cause|fs1] eqn:Hc; [reflexivity|].
    rewrite Encode_unsupported by (now rewrite Encode_requested_Save).
    rewrite Encode_requested_Save.
    apply os_Create_inr in Hc as ->. now rewrite insert_insert_eq.
Qed.

(** C5 (amended): with an empty format override and no target format set,
    [ToBytes] fails with "no format specified for conversion" and returns no
    bytes; [Encode] has no such guard, switches on the empty tag and fails
    with "unsupported format: ", writing nothing to the sink. *)
Theorem C5_no_format p :
  TargetFormat p = ""%string ->
  ToBytes p "" = Err ErrNoFormat /\
  Error ErrNoFormat = "no format specified for conversion"%string /\
  forall w, Encode p w "" = (w, Err (ErrUnsupportedFormat "")) /\
            Error (ErrUnsupportedFormat "") = "unsupported format: "%string.
Proof.
  intros Ht. split; [|split; [reflexivity|]].
  - unfold ToBytes. simpl. now rewrite Ht.
  - intros w. split; [|reflexivity]. unfold Encode. simpl. now rewrite Ht.
Qed.

End Terminal.

Lemma C1_unsupported_format_witness :
  @Encode plain_libs (NewProcessor (Some sample3x2)) [] "xyz"
    = ([], Err (ErrUnsupportedFormat "xyz")) /\
  @ToBytes plain_libs (NewProcessor (Some sample3x2)) "xyz"
    = Err (ErrUnsupportedFormat "xyz") /\
  @Save plain_libs (NewProcessor (Some sample3x2)) "out.xyz" ∅
    = (<["out.xyz"%string := File []]> ∅, Err (ErrUnsupportedFormat "xyz")).
Proof.
  destruct (@C1_unsupported_format plain_libs (NewProcessor (Some sample3x2)))
    as (HE & HT & HS).
  split; [|split].
  - apply (HE [] "xyz"%string). reflexivity.
  - apply (HT "xyz"%string); [discriminate|reflexivity].
  - generalize (HS "out.xyz"%string ∅ eq_refl). vm_compute. exact (fun H => H).
Defined.

(** C1 as stated fails: after the failed [Save] the destination exists, as
    an empty file, where there was none; a file that was there has lost its
    content. *)
Lemma C1_counterexample :
  snd (@Save plain_libs (NewProcessor (Some sample3x2)) "out.xyz" ∅)
    = Err (ErrUnsupportedFormat "xyz") /\
  (∅ : FS) !! "out.xyz"%string = None /\
  fst (@Save plain_libs (NewProcessor (Some sample3x2)) "out.xyz" ∅) !! "out.xyz"%string
    = Some (File []) /\
  snd (@Save plain_libs (NewProcessor (Some sample3x2)) "old.xyz"
         {["old.xyz"%string := File [7; 7; 7]]})
    = Err (ErrUnsupportedFormat "xyz") /\
  fst (@Save plain_libs (NewProcessor (Some sample3x2)) "old.xyz"
         {["old.xyz"%string := File [7; 7; 7]]}) !! "old.xyz"%string
    = Some (File []).
Proof. vm_compute. repeat split; reflexivity. Qed.

Lemma C5_no_format_witness :
  @ToBytes plain_libs (NewProcessor (Some sample3x2)) "" = Err ErrNoFormat /\
  Error ErrNoFormat = "no format specified for conversion"%string /\
  forall w, @Encode plain_libs (NewProcessor (Some sample3x2)) w ""
            = (w, Err (ErrUnsupportedFormat "")) /\
            Error (ErrUnsupportedFormat "") = "unsupported format: "%string.
Proof.
  apply (@C5_no_format plain_libs (NewProcessor (Some sample3x2))). reflexivity.
Defined.

(** C5 as stated fails for [Encode]: its error is "unsupported format: ",
    not "no format specified for conversion". *)
Lemma C5_counterexample :
  @Encode plain_libs (NewProcessor (Some sample3x2)) [] ""
    = ([], Err (ErrUnsupportedFormat "")) /\
  Error (ErrUnsupportedFormat "") = "unsupported format: "%string /\
  Error (ErrUnsupportedFormat "") <> Error ErrNoFormat.
Proof. vm_compute. repeat split; try reflexivity. discriminate. Qed.

(** ** What a chained call changes *)

Lemma pixelBufferLength_cases n r :
  (exists len, image.pixelBufferLength n r = Ok len) \/
  image.pixelBufferLength n r = Panic HugeDimensions.
Proof. unfold image.pixelBufferLength. destruct (_ <? 0); eauto. Qed.

Lemma make_uint8_cases n :
  (exists pix, image.make_uint8 n = Ok pix) \/ image.make_uint8 n = Panic HugeDimensions.
Proof. unfold image.make_uint8. destruct (_ <? _); eauto. Qed.

Lemma NewRGBA_cases r :
  (exists m, image.NewRGBA r = Ok m) \/ image.NewRGBA r = Panic HugeDimensions.
Proof.
  unfold image.NewRGBA.
  destruct (pixelBufferLength_cases 4 r) as [[len ->] | ->]; cbn [obind]; [|auto].
  destruct (make_uint8_cases len) as [[pix ->] | ->]; cbn [obind]; eauto.
Qed.

Lemma NewGray_cases r :
  (exists m, image.NewGray r = Ok m) \/ image.NewGray r = Panic HugeDimensions.
Proof.
  unfold image.NewGray.
  destruct (pixelBufferLength_cases 1 r) as [[len ->] | ->]; cbn [obind]; [|auto].
  destruct (make_uint8_cases len) as [[pix ->] | ->]; cbn [obind]; eauto.
Qed.

(** [image.NewGray] on a rectangle that [image.NewRGBA] can allocate *)
Lemma NewGray_made r :
  allocatable r ->
  image.NewGray r =
  Ok (image.mkGray
        (replicate (Z.to_nat (1 * (image.X (image.Max r) - image.X (image.Min r))
                                * (image.Y (image.Max r) - image.Y (image.Min r)))) 0)
        (image.X (image.Max r) - image.X (image.Min r)) r).
Proof.
  intros (Hx & Hy & H4 & _ & Hsz). unfold image.NewGray, image.pixelBufferLength.
  rewrite (Dx_exact r Hx), (Dy_exact r Hy).
  rewrite mul3NonNeg_exact by (unfold maxAlloc, max_int in *; nia).
  destruct (Z.ltb_spec (1 * (image.X (image.Max r) - image.X (image.Min r))
                          * (image.Y (image.Max r) - image.Y (image.Min r))) 0); [nia|].
  cbn [obind]. unfold image.make_uint8.
  destruct (Z.ltb_spec maxAlloc (1 * (image.X (image.Max r) - image.X (image.Min r))
                                   * (image.Y (image.Max r) - image.Y (image.Min r)))); [nia|].
  cbn [obind]. unfold int_mul.
  rewrite wrap_int_small by (unfold min_int, max_int in *; lia).
  now rewrite Z.mul_1_l.
Qed.

Lemma NewGray_ok r : allocatable r -> exists m, image.NewGray r = Ok m.
Proof. intros Halloc. rewrite (NewGray_made r Halloc). eauto. Qed.

Section Calls.

Context `{libs : ExtLibs}.

(** a transform either returns the receiver with a new image, or panics; it
    has no error result *)
Lemma apply_transform_shape t p :
  (exists img, apply_transform t p = Ok (set_Img p img)) \/
  (exists pn, apply_transform t p = Panic pn).
Proof.
  destruct t; simpl;
    unfold Resize, Grayscale, Rotate180, Rotate90, FlipHorizontal, FlipVertical,
           Brightness, Watermark, Img_deref.
  - destruct (NewRGBA_cases (image.Rect 0 0 width height)) as [[m ->] | ->]; cbn [obind]; eauto.
    destruct (Img p); cbn [obind]; eauto.
  - destruct (Img p) as [src|]; cbn [obind]; eauto.
    destruct (NewGray_cases (image.Bounds src)) as [[m ->] | ->]; cbn [obind]; eauto.
  - destruct (Img p) as [src|]; cbn [obind]; eauto.
    destruct (NewRGBA_cases (image.Bounds src)) as [[m ->] | ->]; cbn [obind]; eauto.
  - destruct (Img p) as [src|]; cbn [obind]; eauto.
    destruct (NewRGBA_cases
                (image.Rect 0 0 (image.Dy (image.Bounds src)) (image.Dx (image.Bounds src))))
      as [[m ->] | ->]; cbn [obind]; eauto.
  - destruct (Img p) as [src|]; cbn [obind]; eauto.
    destruct (NewRGBA_cases (image.Bounds src)) as [[m ->] | ->]; cbn [obind]; eauto.
  - destruct (Img p) as [src|]; cbn [obind]; eauto.
    destruct (NewRGBA_cases (image.Bounds src)) as [[m ->] | ->]; cbn [obind]; eauto.
  - destruct (Img p) as [src|]; cbn [obind]; eauto.
    destruct (NewRGBA_cases (image.Bounds src)) as [[m ->] | ->]; cbn [obind]; eauto.
  - destruct (Img p) as [src|]; cbn [obind]; eauto.
    destruct (NewRGBA_cases (image.Bounds src)) as [[m ->] | ->]; cbn [obind]; eauto.
Qed.

Lemma apply_transform_Ok t p p' :
  apply_transform t p = Ok p' -> exists img, p' = set_Img p img.
Proof.
  intros E. destruct (apply_transform_shape t p) as [[img E'] | [pn E']];
    rewrite E' in E; [injection E as <-; eauto|discriminate].
Qed.

(** on an image whose buffers can be allocated every transform returns *)
Lemma apply_transform_returns t p src :
  Img p = Some src -> allocatable (image.Bounds src) ->
  (forall w h, t = TResize w h -> allocatable (image.Rect 0 0 w h)) ->
  exists img, apply_transform t p = Ok (set_Img p img).
Proof.
  intros Himg Halloc Hres.
  assert (H90 : allocatable (image.Rect 0 0 (image.Dy (image.Bounds src))
                                           (image.Dx (image.Bounds src)))).
  { pose proof (allocatable_turn _ Halloc) as Hturn.
    destruct Halloc as (Hx & Hy & Hsz).
    rewrite (Dx_exact _ Hx), (Dy_exact _ Hy), Rect_grid by lia.
    exact Hturn. }
  destruct t; simpl;
    unfold Resize, Grayscale, Rotate180, Rotate90, FlipHorizontal, FlipVertical,
           Brightness, Watermark, Img_deref; rewrite Himg.
  - destruct (NewRGBA_ok _ (Hres _ _ eq_refl)) as (m & -> & _). cbn [obind]. eauto.
  - cbn [obind]. destruct (NewGray_ok _ Halloc) as (m & ->). cbn [obind]. eauto.
  - cbn [obind]. destruct (NewRGBA_ok _ Halloc) as (m & -> & _). cbn [obind]. eauto.
  - cbn [obind]. destruct (NewRGBA_ok _ H90) as (m & -> & _). cbn [obind]. eauto.
  - cbn [obind]. destruct (NewRGBA_ok _ Halloc) as (m & -> & _). cbn [obind]. eauto.
  - cbn [obind]. destruct (NewRGBA_ok _ Halloc) as (m & -> & _). cbn [obind]. eauto.
  - cbn [obind]. destruct (NewRGBA_ok _ Halloc) as (m & -> & _). cbn [obind]. eauto.
  - cbn [obind]. destruct (NewRGBA_ok _ Halloc) as (m & -> & _). cbn [obind]. eauto.
Qed.

(** C10: a transform that returns has replaced the current image and left
    the quality and the target format as they were (and on an image whose
    buffers can be allocated it does return); [SetQuality] changes the
    quality only; each [To<Format>] changes the target format only. *)
Theorem C10_frame :
  (forall t p p', apply_transform t p = Ok p' ->
     Quality p' = Quality p /\ TargetFormat p' = TargetFormat p) /\
  (forall t p src, Img p = Some src -> allocatable (image.Bounds src) ->
     (forall w h, t = TResize w h -> allocatable (image.Rect 0 0 w h)) ->
     exists p', apply_transform t p = Ok p' /\
                Quality p' = Quality p /\ TargetFormat p' = TargetFormat p) /\
  (forall q p, Img (SetQuality q p) = Img p /\
               TargetFormat (SetQuality q p) = TargetFormat p) /\
  (forall p, Img (ToPNG p) = Img p /\ Quality (ToPNG p) = Quality p) /\
  (forall p, Img (ToJPEG p) = Img p /\ Quality (ToJPEG p) = Quality p) /\
  (forall p, Img (ToGIF p) = Img p /\ Quality (ToGIF p) = Quality p) /\
  (forall p, Img (ToBMP p) = Img p /\ Quality (ToBMP p) = Quality p) /\
  (forall p, Img (ToTIFF p) = Img p /\ Quality (ToTIFF p) = Quality p).
Proof.
  split; [|split].
  - intros t p p' E. destruct (apply_transform_Ok t p p' E) as [img ->]. split; reflexivity.
  - intros t p src Himg Halloc Hres.
    destruct (apply_transform_returns t p src Himg Halloc Hres) as [img E].
    exists (set_Img p img). repeat split. exact E.
  - repeat split.
Qed.

(** C2 (amended): a transform called on a processor whose image is nil does
    not return an error, and does not return at all: it panics, on the first
    method call on the nil image (in [Resize], for dimensions that cannot be
    allocated, on the allocation before it), before any pixel is visited. *)
Theorem C2_nil_image_panics t p :
  Img p = None ->
  (forall e, apply_transform t p <> Err e) /\
  (forall p', apply_transform t p <> Ok p') /\
  (apply_transform t p = Panic NilDereference \/
   exists w h, t = TResize w h /\ apply_transform t p = Panic HugeDimensions).
Proof.
  intros Hnil.
  assert (H : apply_transform t p = Panic NilDereference \/
              exists w h, t = TResize w h /\ apply_transform t p = Panic HugeDimensions).
  { destruct t; simpl;
      unfold Resize, Grayscale, Rotate180, Rotate90, FlipHorizontal, FlipVertical,
             Brightness, Watermark, Img_deref; rewrite Hnil; cbn [obind]; auto.
    destruct (NewRGBA_cases (image.Rect 0 0 width height)) as [[m ->] | ->]; cbn [obind]; eauto. }
  split; [|split; [|exact H]].
  - intros e. destruct H as [-> | (w & h & _ & ->)]; discriminate.
  - intros p'. destruct H as [-> | (w & h & _ & ->)]; discriminate.
Qed.

End Calls.

Lemma C10_frame_witness :
  exists p', @apply_transform plain_libs TRotate180 (NewProcessor (Some sample3x2)) = Ok p' /\
             Quality p' = 90 /\ TargetFormat p' = ""%string.
Proof.
  destruct (proj1 (proj2 (@C10_frame plain_libs)) TRotate180
              (NewProcessor (Some sample3x2)) sample3x2 eq_refl sample3x2_allocatable)
    as (p' & E & HQ & HT).
  - intros w h Hneq. discriminate Hneq.
  - exists p'. split; [exact E|]. split; [exact HQ|exact HT].
Defined.

Lemma C2_nil_image_panics_witness :
  (forall e, @apply_transform plain_libs TGrayscale (NewProcessor None) <> Err e) /\
  (forall p', @apply_transform plain_libs TGrayscale (NewProcessor None) <> Ok p') /\
  (@apply_transform plain_libs TGrayscale (NewProcessor None) = Panic NilDereference \/
   exists w h, TGrayscale = TResize w h /\
     @apply_transform plain_libs TGrayscale (NewProcessor None) = Panic HugeDimensions).
Proof.
  apply (@C2_nil_image_panics plain_libs TGrayscale (NewProcessor None)). reflexivity.
Defined.

(** C2 as stated fails: on a nil image the eight transforms panic; none
    yields an error. *)
Lemma C2_counterexample :
  Forall (fun t => @apply_transform plain_libs t (NewProcessor None) = Panic NilDereference)
    [TResize 300 300; TGrayscale; TRotate180; TRotate90; TFlipHorizontal; TFlipVertical;
     TBrightness 10; TWatermark "w"] /\
  forall e, Grayscale (NewProcessor None) <> Err e.
Proof.
  split.
  - repeat constructor.
  - intros e. discriminate.
Qed.

(** ** Format precedence *)

Lemma last_format_acc cs acc :
  last_format cs acc = match last_format cs None with
                       | Some f => Some f
                       | None => acc
                       end.
Proof.
  revert acc. induction cs as [|c cs IH]; intros acc; simpl; [reflexivity|].
  rewrite (IH (match format_set_by c with Some f => Some f | None => acc end)).
  rewrite (IH (match format_set_by c with Some f => Some f | None => None end)).
  destruct (last_format cs None); [reflexivity|]. now destruct (format_set_by c).
Qed.

Section Precedence.

Context `{libs : ExtLibs}.

Lemma apply_call_TargetFormat c p p' :
  apply_call c p = Ok p' ->
  TargetFormat p' = match format_set_by c with
                    | Some f => f
                    | None => TargetFormat p
                    end.
Proof.
  destruct c; simpl; intros E; try (injection E as <-; reflexivity).
  destruct (apply_transform_Ok t p p' E) as [img ->]. reflexivity.
Qed.

Lemma chain_TargetFormat cs p p' :
  chain cs p = Ok p' ->
  TargetFormat p' = default (TargetFormat p) (last_format cs None).
Proof.
  revert p. induction cs as [|c cs IH]; intros p E; simpl in *.
  - now injection E as <-.
  - destruct (apply_call c p) as [p1| |] eqn:E1; cbn [obind] in E; try discriminate.
    rewrite (IH p1 E), (apply_call_TargetFormat c p p1 E1).
    rewrite (last_format_acc cs (match format_set_by c with Some f => Some f | None => None end)).
    destruct (last_format cs None); [reflexivity|]. now destruct (format_set_by c).
Qed.

Lemma last_format_set cs f :
  last_format cs None = Some f -> exists c, c ∈ cs /\ format_set_by c = Some f.
Proof.
  induction cs as [|c cs IH]; simpl; [discriminate|].
  rewrite last_format_acc. destruct (last_format cs None) as [g|] eqn:E.
  - intros [= <-]. destruct (IH eq_refl) as (c' & Hc' & Hf). exists c'. split; [now right|exact Hf].
  - destruct (format_set_by c) as [g|] eqn:Ec; [|discriminate].
    intros [= <-]. exists c. split; [now left|exact Ec].
Qed.

(** the tag of a [To<Format>] call is not empty, is its own normal form and
    selects the codec of that name *)
Lemma format_set_by_codec c f p :
  format_set_by c = Some f ->
  f <> ""%string /\ normalize f = f /\
  exists call, select_codec p f = Some call /\ codec_tag call = f.
Proof.
  destruct c; simpl; intros [= <-]; (split; [discriminate|]); (split; [reflexivity|]);
    vm_compute; eauto.
Qed.

(** C4: once a [To<Format>] call has been made in the chain, [Save] resolves
    the format to the tag of the last such call whatever the destination
    path, and the file holds what the codec of that name writes; the
    extension of the path is the format only when the chain has no
    [To<Format>] call. *)
Theorem C4_target_format_wins cs img p :
  chain cs (NewProcessor img) = Ok p ->
  match last_format cs None with
  | Some f =>
      TargetFormat p = f /\
      exists call, codec_tag call = f /\ select_codec p f = Some call /\
        forall path fs,
          Save_format p path = f /\
          Save p path fs =
          match os_Create fs path with
          | inl cause => (fs, Err (ErrCreateFile cause))
          | inr fs1 => (<[path := File (fst (codec_Encode call (Img p)))]> fs1,
                        snd (codec_Encode call (Img p)))
          end
  | None =>
      TargetFormat p = ""%string /\ forall path, Save_format p path = Ext path
  end.
Proof.
  intros E. pose proof (chain_TargetFormat cs _ p E) as Ht. simpl in Ht.
  destruct (last_format cs None) as [f|] eqn:El; simpl in Ht.
  - destruct (last_format_set cs f El) as (c & _ & Hc).
    destruct (format_set_by_codec c f p Hc) as (Hne & Hnorm & call & Hsel & Htag).
    split; [exact Ht|]. exists call. split; [exact Htag|]. split; [exact Hsel|].
    intros path fs.
    assert (Hsf : Save_format p path = f).
    { unfold Save_format. rewrite Ht. destruct (String.eqb_spec f ""); [contradiction|reflexivity]. }
    split; [exact Hsf|].
    unfold Save. destruct (os_Create fs path) as [cause|fs1]; [reflexivity|].
    rewrite (Encode_supported p [] (Save_format p path) call).
    + reflexivity.
    + rewrite Encode_requested_Save, Hsf, Hnorm. exact Hsel.
  - split; [exact Ht|]. intros path. unfold Save_format. now rewrite Ht.
Qed.

End Precedence.

Lemma C4_target_format_wins_witness :
  let p := SetQuality 50 (ToJPEG (NewProcessor (Some sample3x2))) in
  TargetFormat p = "jpeg"%string /\
  exists call, codec_tag call = "jpeg"%string /\
    @select_codec p "jpeg" = Some call /\
    forall path fs,
      Save_format p path = "jpeg"%string /\
      @Save plain_libs p path fs =
      match os_Create fs path with
      | inl cause => (fs, Err (ErrCreateFile cause))
      | inr fs1 => (<[path := File (fst (@codec_Encode plain_libs call (Img p)))]> fs1,
                    snd (@codec_Encode plain_libs call (Img p)))
      end.
Proof.
  exact (@C4_target_format_wins plain_libs [CToJPEG; CSetQuality 50] (Some sample3x2)
           (SetQuality 50 (ToJPEG (NewProcessor (Some sample3x2)))) eq_refl).
Defined.

(** ** The SVG rasteriser *)

Section SVG.

Context `{libs : ExtLibs}.

(** C9 (amended): [decodeSVG] sizes its output from the [ViewBox] of the
    icon the parser returns, [int(ViewBox.W)] by [int(ViewBox.H)], whatever
    the parser has filled it from (where the buffer can be allocated); when
    one of the two integers is not positive -- in particular when the
    parser has left the [ViewBox] at its zero value -- the output is exactly
    512 by 512. *)
Theorem C9_svg_dimensions ioReader icon :
  oksvg_ReadIconStream ioReader = inr icon ->
  let w := float64_to_int (VW (icon_ViewBox icon)) in
  let h := float64_to_int (VH (icon_ViewBox icon)) in
  (0 < w -> 0 < h -> allocatable (grid w h) ->
     exists img, decodeSVG ioReader = Ok img /\ image.Bounds img = grid w h) /\
  (w <= 0 \/ h <= 0 ->
     exists img, decodeSVG ioReader = Ok img /\ image.Bounds img = grid 512 512) /\
  (icon_ViewBox icon = mkViewBox 0 0 0 0 ->
     exists img, decodeSVG ioReader = Ok img /\ image.Bounds img = grid 512 512).
Proof.
  intros Hread w h.
  assert (Hfall : w <= 0 \/ h <= 0 ->
            exists img, decodeSVG ioReader = Ok img /\ image.Bounds img = grid 512 512).
  { intros Hnp. unfold decodeSVG. rewrite Hread. fold w h.
    assert (E : (w <=? 0) || (h <=? 0) = true).
    { apply orb_true_iff. rewrite !Z.leb_le. exact Hnp. }
    rewrite E. rewrite (Rect_grid 512 512) by lia.
    destruct (NewRGBA_ok (grid 512 512)) as (m & -> & Hr & _).
    { apply allocatable_grid; unfold maxAlloc; lia. }
    cbn [obind]. eexists. split; [reflexivity|]. exact Hr. }
  split; [|split; [exact Hfall|]].
  - intros Hw Hh Halloc. unfold decodeSVG. rewrite Hread. fold w h.
    assert (E : (w <=? 0) || (h <=? 0) = false).
    { apply orb_false_iff. rewrite !Z.leb_gt. split; assumption. }
    rewrite E. rewrite (Rect_grid w h) by lia.
    destruct (NewRGBA_ok (grid w h) Halloc) as (m & -> & Hr & _).
    cbn [obind]. eexists. split; [reflexivity|]. exact Hr.
  - intros Hvb. apply Hfall. left. unfold w. rewrite Hvb. vm_compute. discriminate.
Qed.

End SVG.

Lemma C9_svg_dimensions_witness :
  exists img, @decodeSVG plain_libs [] = Ok img /\ image.Bounds img = grid 100 50.
Proof.
  refine (proj1 (@C9_svg_dimensions plain_libs []
                   (mkSvgIcon (mkViewBox 0 0 100 50) []) eq_refl) _ _ _).
  - reflexivity.
  - reflexivity.
  - unfold allocatable. vm_compute. repeat split; discriminate.
Defined.

(** C9 as stated fails: the document of the repository's test declares no
    view-box, the parser sizes its icon from the [width] and [height]
    attributes, and [decodeSVG] returns a grid of 100 by 100, not of 512 by
    512. *)
Lemma C9_counterexample :
  occurs "viewBox" test_svg = false /\
  exists img, @decodeSVG test_svg_libs (bytes_of test_svg) = Ok img /\
    image.Bounds img = grid 100 100 /\ image.Bounds img <> grid 512 512.
Proof.
  split; [vm_compute; reflexivity|].
  assert (Hread : @oksvg_ReadIconStream test_svg_libs (bytes_of test_svg)
                  = inr (mkSvgIcon (mkViewBox 0 0 100 100) [])) by (vm_compute; reflexivity).
  destruct (NewRGBA_ok (grid 100 100)) as (m & Hnew & Hr & _).
  { apply allocatable_grid; unfold maxAlloc; lia. }
  unfold decodeSVG. rewrite Hread.
  change (float64_to_int (VW (icon_ViewBox (mkSvgIcon (mkViewBox 0 0 100 100) [])))) with 100.
  change (float64_to_int (VH (icon_ViewBox (mkSvgIcon (mkViewBox 0 0 100 100) [])))) with 100.
  cbn [Z.leb Z.compare Pos.compare Pos.compare_cont orb].
  rewrite (Rect_grid 100 100) by lia. rewrite Hnew. cbn [obind].
  eexists. split; [reflexivity|]. split; [exact Hr|].
  change (image.RGBA_Rect m <> grid 512 512). rewrite Hr. discriminate.
Qed.

(* ===================================================================== *)
(** * Part III. Further properties of the package                         *)
(* ===================================================================== *)

(** ** The pixel buffer of [image.Gray] and [Grayscale] *)

Lemma NewGray_fresh r :
  allocatable r ->
  exists m, image.NewGray r = Ok m /\ image.Gray_Rect m = r /\ wf_Gray m.
Proof.
  intros Halloc. rewrite (NewGray_made r Halloc). destruct Halloc as (Hx & Hy & Hsz).
  eexists. split; [reflexivity|]. split; [reflexivity|].
  unfold wf_Gray; simpl. repeat split; try lia.
  rewrite length_replicate, Z2Nat.id by nia. lia.
Qed.

Lemma Gray_Set_Rect m x y c : image.Gray_Rect (image.Gray_Set m x y c) = image.Gray_Rect m.
Proof. unfold image.Gray_Set. now destruct (image.In x y (image.Gray_Rect m)). Qed.

Lemma Gray_Set_Stride m x y c :
  image.Gray_Stride (image.Gray_Set m x y c) = image.Gray_Stride m.
Proof. unfold image.Gray_Set. now destruct (image.In x y (image.Gray_Rect m)). Qed.

Lemma Gray_Set_wf m x y c : wf_Gray m -> wf_Gray (image.Gray_Set m x y c).
Proof.
  unfold image.Gray_Set. destruct (image.In x y (image.Gray_Rect m)); [|easy].
  unfold wf_Gray; simpl. now rewrite length_insert.
Qed.

Lemma Gray_PixOffset_bounds m x y :
  wf_Gray m -> image.In x y (image.Gray_Rect m) = true ->
  0 <= image.Gray_PixOffset m x y < Z.of_nat (length (image.Gray_Pix m)).
Proof.
  intros (Hx & Hy & Hs & Hl) Hin%In_spec.
  unfold image.Gray_PixOffset. rewrite Hl, Hs. nia.
Qed.

Lemma Gray_PixOffset_inj m x y x' y' :
  wf_Gray m ->
  image.In x y (image.Gray_Rect m) = true -> image.In x' y' (image.Gray_Rect m) = true ->
  image.Gray_PixOffset m x y = image.Gray_PixOffset m x' y' -> (x, y) = (x', y').
Proof.
  intros (Hx & Hy & Hs & Hl) Hin%In_spec Hin'%In_spec.
  unfold image.Gray_PixOffset. rewrite Hs. intros E.
  assert (y = y') by nia. subst y'. f_equal. lia.
Qed.

Lemma Gray_Set_get_eq m x y c :
  wf_Gray m -> image.In x y (image.Gray_Rect m) = true ->
  image.Gray_At (image.Gray_Set m x y c) x y = gray_of c.
Proof.
  intros Hwf Hin. pose proof (Gray_PixOffset_bounds m x y Hwf Hin) as Hb.
  unfold image.Gray_At. rewrite Gray_Set_Rect, Hin.
  unfold image.Gray_PixOffset at 1. rewrite Gray_Set_Rect, Gray_Set_Stride.
  fold (image.Gray_PixOffset m x y).
  unfold image.Gray_Set. rewrite Hin. cbn [image.Gray_Pix].
  unfold image.pix_get. rewrite list_lookup_insert_eq by lia. reflexivity.
Qed.

Lemma Gray_Set_get_ne m x y c x' y' :
  wf_Gray m -> (x, y) <> (x', y') ->
  image.Gray_At (image.Gray_Set m x y c) x' y' = image.Gray_At m x' y'.
Proof.
  intros Hwf Hne.
  destruct (image.In x y (image.Gray_Rect m)) eqn:Hin;
    [|unfold image.Gray_Set; now rewrite Hin].
  unfold image.Gray_At. rewrite Gray_Set_Rect.
  destruct (image.In x' y' (image.Gray_Rect m)) eqn:Hin'; [|reflexivity].
  pose proof (Gray_PixOffset_bounds m x y Hwf Hin) as Hb.
  pose proof (Gray_PixOffset_bounds m x' y' Hwf Hin') as Hb'.
  unfold image.Gray_PixOffset at 1. rewrite Gray_Set_Rect, Gray_Set_Stride.
  fold (image.Gray_PixOffset m x' y').
  unfold image.Gray_Set. rewrite Hin. cbn [image.Gray_Pix].
  unfold image.pix_get. rewrite list_lookup_insert_ne; [reflexivity|].
  intros E. apply Hne. apply (Gray_PixOffset_inj m); auto. lia.
Qed.

Lemma paint_gray_Rect c pts m : image.Gray_Rect (paint_gray c pts m) = image.Gray_Rect m.
Proof.
  revert m. induction pts as [|pt pts IH]; intros m; [reflexivity|].
  unfold paint_gray in *. simpl. now rewrite IH, Gray_Set_Rect.
Qed.

Lemma paint_gray_untouched c pts m x y :
  wf_Gray m -> (x, y) ∉ pts ->
  image.Gray_At (paint_gray c pts m) x y = image.Gray_At m x y.
Proof.
  revert m. induction pts as [|pt pts IH]; intros m Hwf Hnot; [reflexivity|].
  rewrite not_elem_of_cons in Hnot. destruct Hnot as [Hne Hnot].
  unfold paint_gray in *. simpl. rewrite IH by auto using Gray_Set_wf.
  apply Gray_Set_get_ne; [exact Hwf|]. intros E. apply Hne. rewrite <- E. now destruct pt.
Qed.

Lemma paint_gray_stored c pts m x y :
  wf_Gray m -> NoDup pts -> (x, y) ∈ pts ->
  image.In x y (image.Gray_Rect m) = true ->
  image.Gray_At (paint_gray c pts m) x y = gray_of (c (x, y)).
Proof.
  revert m. induction pts as [|pt pts IH]; intros m Hwf Hnd Hpt Hin.
  - now apply elem_of_nil in Hpt.
  - rewrite NoDup_cons in Hnd. destruct Hnd as [Hfresh Hnd].
    change (paint_gray c (pt :: pts) m)
      with (paint_gray c pts (image.Gray_Set m (fst pt) (snd pt) (c pt))).
    apply elem_of_cons in Hpt as [<- | Hpt].
    + rewrite paint_gray_untouched; [now apply Gray_Set_get_eq|now apply Gray_Set_wf|exact Hfresh].
    + apply IH; auto using Gray_Set_wf. now rewrite Gray_Set_Rect.
Qed.

Lemma Grayscale_run p src :
  Img p = Some src -> allocatable (image.Bounds src) ->
  exists dst, Grayscale p = Ok (set_Img p dst) /\
    image.Bounds dst = image.Bounds src /\
    forall x y, image.In x y (image.Bounds src) = true ->
      image.At dst x y = gray_of (image.At src x y).
Proof.
  intros Himg Halloc.
  destruct (NewGray_fresh _ Halloc) as (m0 & Hnew & Hrect & Hwf).
  unfold Grayscale, Img_deref. rewrite Himg. cbn [obind]. rewrite Hnew. cbn [obind].
  eexists. split; [reflexivity|].
  rewrite (for_range_scan (image.Bounds src)
             (fun x y dst => image.Gray_Set dst x y (image.At src x y))).
  change (foldl _ m0 (scan (image.Bounds src)))
    with (paint_gray (fun pt => image.At src (fst pt) (snd pt)) (scan (image.Bounds src)) m0).
  split; [simpl; now rewrite paint_gray_Rect|].
  intros x y Hin. simpl.
  rewrite paint_gray_stored; auto using NoDup_scan.
  - now apply elem_of_scan.
  - now rewrite Hrect.
Qed.

Lemma GrayModel_Gray y : 0 <= y < 256 -> color.GrayModel (color.Gray_RGBA y) = y.
Proof.
  intros Hy. apply Z.eqb_eq.
  apply (forall_byte (fun y => color.GrayModel (color.Gray_RGBA y) =? y)); [|exact Hy].
  vm_compute. reflexivity.
Qed.

Lemma gray_of_idem c : gray_of (gray_of c) = gray_of c.
Proof.
  unfold gray_of. rewrite GrayModel_Gray; [reflexivity|].
  unfold color.GrayModel. apply uint8_range.
Qed.

(** X1: on an image whose buffer can be allocated, whatever its origin,
    [Grayscale] returns an image with the same bounds whose sample at every
    in-bounds pixel is the grey of the library's luminance formula on the
    source sample: red, green and blue channels equal, and fully opaque
    whatever the source alpha was. *)
Theorem X1_Grayscale_luminance p src :
  Img p = Some src -> allocatable (image.Bounds src) ->
  exists dst, Grayscale p = Ok (set_Img p dst) /\
    image.Bounds dst = image.Bounds src /\
    forall x y, image.In x y (image.Bounds src) = true ->
      let c := image.At src x y in
      let Y := uint8 (Z.shiftr (19595 * color.cR c + 38470 * color.cG c + 7471 * color.cB c
                                + 32768) 24) in
      image.At dst x y = color.Gray_RGBA Y /\
      color.cR (image.At dst x y) = color.cG (image.At dst x y) /\
      color.cG (image.At dst x y) = color.cB (image.At dst x y) /\
      color.cA (image.At dst x y) = 65535 /\
      channels8 (image.At dst x y) = color.mkRGBA Y Y Y 255.
Proof.
  intros Himg Halloc.
  destruct (Grayscale_run p src Himg Halloc) as (dst & E & B & P).
  exists dst. split; [exact E|]. split; [exact B|].
  intros x y Hin c Y. rewrite (P x y Hin). fold c.
  assert (EY : gray_of c = color.Gray_RGBA Y) by reflexivity.
  rewrite EY. split; [reflexivity|]. repeat split.
  pose proof (uint8_range (Z.shiftr (19595 * color.cR c + 38470 * color.cG c + 7471 * color.cB c
                                + 32768) 24)) as HY. fold Y in HY.
  unfold channels8, color.RGBAModel, color.Gray_RGBA; simpl.
  rewrite !replicate8 by exact HY. reflexivity.
Qed.

Lemma X1_Grayscale_luminance_witness :
  exists dst, Grayscale (NewProcessor (Some sample3x2))
              = Ok (set_Img (NewProcessor (Some sample3x2)) dst) /\
    image.Bounds dst = image.Bounds sample3x2 /\
    forall x y, image.In x y (image.Bounds sample3x2) = true ->
      let c := image.At sample3x2 x y in
      let Y := uint8 (Z.shiftr (19595 * color.cR c + 38470 * color.cG c + 7471 * color.cB c
                                + 32768) 24) in
      image.At dst x y = color.Gray_RGBA Y /\
      color.cR (image.At dst x y) = color.cG (image.At dst x y) /\
      color.cG (image.At dst x y) = color.cB (image.At dst x y) /\
      color.cA (image.At dst x y) = 65535 /\
      channels8 (image.At dst x y) = color.mkRGBA Y Y Y 255.
Proof.
  apply (X1_Grayscale_luminance (NewProcessor (Some sample3x2)) sample3x2).
  - reflexivity.
  - exact sample3x2_allocatable.
Defined.

(** X2: [Grayscale] is idempotent: a second [Grayscale] returns a grid with
    the same bounds and the same sample at every pixel as the first. *)
Theorem X2_Grayscale_idempotent p src :
  Img p = Some src -> allocatable (image.Bounds src) ->
  same_result (times 2 Grayscale p) (Grayscale p).
Proof.
  intros Himg Halloc.
  destruct (Grayscale_run p src Himg Halloc) as (d1 & E1 & B1 & P1).
  assert (Halloc1 : allocatable (image.Bounds d1)) by now rewrite B1.
  destruct (Grayscale_run (set_Img p d1) d1 eq_refl Halloc1) as (d2 & E2 & B2 & P2).
  exists (set_Img p d2), (set_Img p d1), d2, d1.
  split; [simpl; rewrite E1; cbn [obind]; rewrite E2; reflexivity|].
  split; [exact E1|]. repeat split; try reflexivity.
  - exact B2.
  - intros x y Hin. rewrite B2 in Hin. rewrite (P2 x y Hin).
    rewrite B1 in Hin. rewrite (P1 x y Hin). apply gray_of_idem.
Qed.

Lemma X2_Grayscale_idempotent_witness :
  same_result (times 2 Grayscale (NewProcessor (Some sample3x2)))
              (Grayscale (NewProcessor (Some sample3x2))).
Proof.
  apply (X2_Grayscale_idempotent (NewProcessor (Some sample3x2)) sample3x2).
  - reflexivity.
  - exact sample3x2_allocatable.
Defined.

(** ** How the geometric transforms compose *)

Lemma same_result_set_Img p a b o1 o2 :
  o1 = Ok (set_Img p a) -> o2 = Ok (set_Img p b) -> same_grid a b -> same_result o1 o2.
Proof.
  intros E1 E2 Hs. exists (set_Img p a), (set_Img p b), a, b. repeat split; auto; apply Hs.
Qed.

(** X3: on a grid with its origin at (0, 0), two [Rotate90] give the grid
    one [Rotate180] gives: the same bounds and the same sample at every
    pixel. *)
Theorem X3_Rotate90_twice_is_Rotate180 p src W H :
  Img p = Some src -> image.Bounds src = grid W H -> allocatable (grid W H) ->
  same_result (times 2 Rotate90 p) (Rotate180 p).
Proof.
  intros Himg Hb Halloc.
  destruct (Rotate90_twice p src W H Himg Hb Halloc) as (d2 & E2 & B2 & P2).
  destruct (Rotate180_grid p src W H Himg Hb Halloc) as (d & E & B & P).
  apply (same_result_set_Img p d2 d _ _ E2 E). split; [congruence|].
  intros x y Hin. rewrite B2 in Hin. now rewrite (P2 x y Hin), (P x y Hin).
Qed.

Lemma X3_Rotate90_twice_is_Rotate180_witness :
  same_result (times 2 Rotate90 (NewProcessor (Some sample3x2)))
              (Rotate180 (NewProcessor (Some sample3x2))).
Proof.
  apply (X3_Rotate90_twice_is_Rotate180 (NewProcessor (Some sample3x2)) sample3x2 3 2).
  - reflexivity.
  - reflexivity.
  - exact sample3x2_allocatable.
Defined.

(** X4: on a grid with its origin at (0, 0), [FlipHorizontal] followed by
    [FlipVertical], and [FlipVertical] followed by [FlipHorizontal], both
    give the grid [Rotate180] gives. *)
Theorem X4_flips_compose_to_Rotate180 p src W H :
  Img p = Some src -> image.Bounds src = grid W H -> allocatable (grid W H) ->
  same_result (p1 <~ FlipHorizontal p ;; FlipVertical p1) (Rotate180 p) /\
  same_result (p1 <~ FlipVertical p ;; FlipHorizontal p1) (Rotate180 p).
Proof.
  intros Himg Hb Halloc.
  destruct (Rotate180_grid p src W H Himg Hb Halloc) as (d & E & B & P).
  destruct (FlipHorizontal_grid p src W H Himg Hb Halloc) as (h1 & Eh1 & Bh1 & Ph1).
  destruct (FlipVertical_grid (set_Img p h1) h1 W H eq_refl Bh1 Halloc) as (h2 & Eh2 & Bh2 & Ph2).
  destruct (FlipVertical_grid p src W H Himg Hb Halloc) as (v1 & Ev1 & Bv1 & Pv1).
  destruct (FlipHorizontal_grid (set_Img p v1) v1 W H eq_refl Bv1 Halloc) as (v2 & Ev2 & Bv2 & Pv2).
  split.
  - apply (same_result_set_Img p h2 d); [rewrite Eh1; cbn [obind]; exact Eh2|exact E|].
    split; [congruence|]. intros x y Hin. rewrite Bh2 in Hin. apply In_grid in Hin as Hxy.
    rewrite (Ph2 x y Hin), Ph1 by (apply In_grid; lia).
    now rewrite to8_idem, (P x y Hin).
  - apply (same_result_set_Img p v2 d); [rewrite Ev1; cbn [obind]; exact Ev2|exact E|].
    split; [congruence|]. intros x y Hin. rewrite Bv2 in Hin. apply In_grid in Hin as Hxy.
    rewrite (Pv2 x y Hin), Pv1 by (apply In_grid; lia).
    now rewrite to8_idem, (P x y Hin).
Qed.

Lemma X4_flips_compose_to_Rotate180_witness :
  same_result (p1 <~ FlipHorizontal (NewProcessor (Some sample3x2)) ;; FlipVertical p1)
              (Rotate180 (NewProcessor (Some sample3x2))) /\
  same_result (p1 <~ FlipVertical (NewProcessor (Some sample3x2)) ;; FlipHorizontal p1)
              (Rotate180 (NewProcessor (Some sample3x2))).
Proof.
  apply (X4_flips_compose_to_Rotate180 (NewProcessor (Some sample3x2)) sample3x2 3 2).
  - reflexivity.
  - reflexivity.
  - exact sample3x2_allocatable.
Defined.

(** a mirroring transform applied a third time *)
Lemma mirror_thrice (T : Processor -> outcome Processor) (f : Z * Z -> Z * Z) W H :
  (forall p src, Img p = Some src -> image.Bounds src = grid W H ->
     exists dst, T p = Ok (set_Img p dst) /\ image.Bounds dst = grid W H /\
       forall x y, image.In x y (grid W H) = true ->
         image.At dst x y = to8 (image.At src (fst (f (x, y))) (snd (f (x, y))))) ->
  (forall x y, image.In x y (grid W H) = true ->
     image.In (fst (f (x, y))) (snd (f (x, y))) (grid W H) = true /\ f (f (x, y)) = (x, y)) ->
  forall p src, Img p = Some src -> image.Bounds src = grid W H ->
    same_result (times 3 T p) (T p).
Proof.
  intros HT Hf p src Himg Hb.
  destruct (HT p src Himg Hb) as (d1 & E1 & B1 & P1).
  destruct (mirror_twice T f W H HT Hf (set_Img p d1) d1 eq_refl B1) as (d3 & E3 & B3 & P3).
  apply (same_result_set_Img p d3 d1); [|exact E1|].
  - change (times 3 T p) with (p1 <~ T p ;; times 2 T p1). rewrite E1. cbn [obind]. exact E3.
  - split; [congruence|]. intros x y Hin. rewrite B3 in Hin.
    rewrite (P3 x y Hin), (P1 x y Hin). apply to8_idem.
Qed.

Lemma Rotate90_four p src W H :
  Img p = Some src -> image.Bounds src = grid W H -> allocatable (grid W H) ->
  exists dst, times 4 Rotate90 p = Ok (set_Img p dst) /\ image.Bounds dst = grid W H /\
    forall x y, image.In x y (grid W H) = true -> image.At dst x y = to8 (image.At src x y).
Proof.
  intros Himg Hb Halloc.
  destruct (Rotate90_twice p src W H Himg Hb Halloc) as (d2 & E2 & B2 & P2).
  destruct (Rotate90_twice (set_Img p d2) d2 W H eq_refl B2 Halloc) as (d4 & E4 & B4 & P4).
  exists d4. split; [|split; [exact B4|]].
  - change 4%nat with (2 + 2)%nat. rewrite times_add, E2. cbn [obind]. exact E4.
  - intros x y Hin. apply In_grid in Hin as Hxy.
    rewrite (P4 x y Hin), P2 by (apply In_grid; lia).
    rewrite to8_idem. do 2 f_equal; lia.
Qed.

(** X5: on what one of these transforms has itself produced the round trip
    is exact.  On a grid with its origin at (0, 0), three [Rotate180] give
    the very grid one gives, likewise three [FlipHorizontal] and three
    [FlipVertical], and five [Rotate90] give the grid one [Rotate90] gives. *)
Theorem X5_round_trip_after_first p src W H :
  Img p = Some src -> image.Bounds src = grid W H -> allocatable (grid W H) ->
  same_result (times 3 Rotate180 p) (Rotate180 p) /\
  same_result (times 3 FlipHorizontal p) (FlipHorizontal p) /\
  same_result (times 3 FlipVertical p) (FlipVertical p) /\
  same_result (times 5 Rotate90 p) (Rotate90 p).
Proof.
  intros Himg Hb Halloc. repeat split.
  - apply (mirror_thrice Rotate180 (fun q => (W - 1 - fst q, H - 1 - snd q)) W H) with src; auto.
    + intros p' src' Hi' Hb'. apply Rotate180_grid; auto.
    + intros x y Hin%In_grid. simpl. split; [apply In_grid; lia|f_equal; lia].
  - apply (mirror_thrice FlipHorizontal (fun q => (W - 1 - fst q, snd q)) W H) with src; auto.
    + intros p' src' Hi' Hb'. apply FlipHorizontal_grid; auto.
    + intros x y Hin%In_grid. simpl. split; [apply In_grid; lia|f_equal; lia].
  - apply (mirror_thrice FlipVertical (fun q => (fst q, H - 1 - snd q)) W H) with src; auto.
    + intros p' src' Hi' Hb'. apply FlipVertical_grid; auto.
    + intros x y Hin%In_grid. simpl. split; [apply In_grid; lia|f_equal; lia].
  - destruct (Rotate90_grid p src W H Himg Hb Halloc) as (d1 & E1 & B1 & P1).
    destruct (Rotate90_four (set_Img p d1) d1 H W eq_refl B1 (allocatable_swap _ _ Halloc))
      as (d5 & E5 & B5 & P5).
    apply (same_result_set_Img p d5 d1); [|exact E1|].
    + change (times 5 Rotate90 p) with (p1 <~ Rotate90 p ;; times 4 Rotate90 p1).
      rewrite E1. cbn [obind]. exact E5.
    + split; [congruence|]. intros x y Hin. rewrite B5 in Hin.
      rewrite (P5 x y Hin), (P1 x y Hin). apply to8_idem.
Qed.

Lemma X5_round_trip_after_first_witness :
  same_result (times 3 Rotate180 (NewProcessor (Some deep1x1)))
              (Rotate180 (NewProcessor (Some deep1x1))) /\
  same_result (times 3 FlipHorizontal (NewProcessor (Some deep1x1)))
              (FlipHorizontal (NewProcessor (Some deep1x1))) /\
  same_result (times 3 FlipVertical (NewProcessor (Some deep1x1)))
              (FlipVertical (NewProcessor (Some deep1x1))) /\
  same_result (times 5 Rotate90 (NewProcessor (Some deep1x1)))
              (Rotate90 (NewProcessor (Some deep1x1))).
Proof.
  apply (X5_round_trip_after_first (NewProcessor (Some deep1x1)) deep1x1 1 1).
  - reflexivity.
  - reflexivity.
  - unfold allocatable, maxAlloc, max_int; simpl. lia.
Defined.

(** ** Bounds of the results *)

Lemma NewRGBA_Ok_Rect r m : image.NewRGBA r = Ok m -> image.RGBA_Rect m = r.
Proof.
  unfold image.NewRGBA.
  destruct (image.pixelBufferLength 4 r) as [len|e|pn]; cbn [obind]; try discriminate.
  destruct (image.make_uint8 len) as [pix|e|pn]; cbn [obind]; try discriminate.
  now intros [= <-].
Qed.

(** the bounds of the source after a mirroring loop, whatever it stores *)
Lemma mirror_loop_Rect (r : image.Rectangle) (fx fy : Z -> Z -> Z)
    (col : Z -> Z -> color.Color) m0 :
  image.RGBA_Rect
    (for_range (image.Y (image.Min r)) (image.Y (image.Max r)) (fun y =>
       for_range (image.X (image.Min r)) (image.X (image.Max r)) (fun x dst =>
         image.RGBA_Set dst (fx x y) (fy x y) (col x y))) m0)
  = image.RGBA_Rect m0.
Proof.
  rewrite (for_range_scan r (fun x y dst => image.RGBA_Set dst (fx x y) (fy x y) (col x y))).
  change (foldl _ m0 (scan r))
    with (paint (fun pt => (fx (fst pt) (snd pt), fy (fst pt) (snd pt)))
                (fun pt => col (fst pt) (snd pt)) (scan r) m0).
  apply paint_Rect.
Qed.

Section Bounds.

Context `{libs : ExtLibs}.

(** X6: on an image whose buffer can be allocated, whatever its origin,
    [Grayscale], [Rotate180], [FlipHorizontal], [FlipVertical],
    [Brightness] and [Watermark] return an image with the bounds of the
    source, origin included; [Rotate90] returns an image whose bounds start
    at (0, 0), as wide as the source was high and as high as it was wide. *)
Theorem X6_result_bounds p src pct text :
  Img p = Some src -> allocatable (image.Bounds src) ->
  let b := image.Bounds src in
  result_Bounds (Grayscale p) = Some b /\
  result_Bounds (Rotate180 p) = Some b /\
  result_Bounds (FlipHorizontal p) = Some b /\
  result_Bounds (FlipVertical p) = Some b /\
  result_Bounds (Brightness pct p) = Some b /\
  result_Bounds (Watermark text p) = Some b /\
  result_Bounds (Rotate90 p)
    = Some (grid (image.Y (image.Max b) - image.Y (image.Min b))
                 (image.X (image.Max b) - image.X (image.Min b))).
Proof.
  intros Himg Halloc b.
  destruct (NewRGBA_ok _ Halloc) as (m0 & Hnew & Hrect & _).
  split; [|split; [|split; [|split; [|split; [|split]]]]].
  - destruct (Grayscale_run p src Himg Halloc) as (dst & -> & B & _). simpl. now rewrite B.
  - unfold Rotate180, Img_deref. rewrite Himg. cbn [obind]. rewrite Hnew. cbn [obind].
    unfold result_Bounds, set_Img, image.RGBA_Image; simpl.
    now rewrite mirror_loop_Rect, Hrect.
  - unfold FlipHorizontal, Img_deref. rewrite Himg. cbn [obind]. rewrite Hnew. cbn [obind].
    unfold result_Bounds, set_Img, image.RGBA_Image; simpl.
    now rewrite mirror_loop_Rect, Hrect.
  - unfold FlipVertical, Img_deref. rewrite Himg. cbn [obind]. rewrite Hnew. cbn [obind].
    unfold result_Bounds, set_Img, image.RGBA_Image; simpl.
    now rewrite mirror_loop_Rect, Hrect.
  - destruct (Brightness_run pct p src Himg Halloc) as (dst & -> & B & _). simpl. now rewrite B.
  - unfold Watermark, Img_deref. rewrite Himg. cbn [obind]. rewrite Hnew. cbn [obind].
    simpl. now rewrite Hrect.
  - pose proof Halloc as (Hx & Hy & Hsz). fold b in Hx, Hy, Hsz.
    assert (Enb : image.Rect 0 0 (image.Dy b) (image.Dx b)
                  = grid (image.Y (image.Max b) - image.Y (image.Min b))
                         (image.X (image.Max b) - image.X (image.Min b))).
    { rewrite (Dx_exact _ Hx), (Dy_exact _ Hy). apply Rect_grid; lia. }
    destruct (NewRGBA_ok (grid (image.Y (image.Max b) - image.Y (image.Min b))
                               (image.X (image.Max b) - image.X (image.Min b))))
      as (m1 & Hnew1 & Hrect1 & _); [apply allocatable_turn; assumption|].
    unfold Rotate90, Img_deref. rewrite Himg. cbn [obind]. fold b. rewrite Enb, Hnew1.
    cbn [obind]. unfold result_Bounds, set_Img, image.RGBA_Image; simpl.
    now rewrite mirror_loop_Rect, Hrect1.
Qed.


End Bounds.

Lemma X6_result_bounds_witness :
  let b := image.Bounds shifted2x1 in
  result_Bounds (Grayscale (NewProcessor (Some shifted2x1))) = Some b /\
  result_Bounds (Rotate180 (NewProcessor (Some shifted2x1))) = Some b /\
  result_Bounds (FlipHorizontal (NewProcessor (Some shifted2x1))) = Some b /\
  result_Bounds (FlipVertical (NewProcessor (Some shifted2x1))) = Some b /\
  result_Bounds (@Brightness plain_libs 10 (NewProcessor (Some shifted2x1))) = Some b /\
  result_Bounds (@Watermark plain_libs "w" (NewProcessor (Some shifted2x1))) = Some b /\
  result_Bounds (Rotate90 (NewProcessor (Some shifted2x1)))
    = Some (grid (image.Y (image.Max b) - image.Y (image.Min b))
                 (image.X (image.Max b) - image.X (image.Min b))).
Proof.
  apply (@X6_result_bounds plain_libs (NewProcessor (Some shifted2x1)) shifted2x1 10 "w").
  - reflexivity.
  - unfold allocatable, maxAlloc, max_int; simpl. lia.
Defined.


(** ** Brightness, as an order on channel values *)


Section BrightnessOrder.

Context `{libs : ExtLibs}.


End BrightnessOrder.


(** ** Quality along a chain *)

Section Quality.

Context `{libs : ExtLibs}.

Lemma apply_call_Quality c p p' :
  apply_call c p = Ok p' -> 1 <= Quality p <= 100 -> 1 <= Quality p' <= 100.
Proof.
  destruct c; simpl; intros E Hq; try (injection E as <-; exact Hq).
  - destruct (apply_transform_Ok t p p' E) as [img ->]. exact Hq.
  - injection E as <-. unfold SetQuality; simpl.
    destruct (quality <? 1) eqn:E1; [apply Z.ltb_lt in E1|apply Z.ltb_ge in E1].
    + simpl. lia.
    + destruct (100 <? quality) eqn:E2; [apply Z.ltb_lt in E2|apply Z.ltb_ge in E2]; lia.
Qed.

Lemma chain_Quality cs p p' :
  chain cs p = Ok p' -> 1 <= Quality p <= 100 -> 1 <= Quality p' <= 100.
Proof.
  revert p. induction cs as [|c cs IH]; intros p E Hq; simpl in E.
  - now injection E as <-.
  - destruct (apply_call c p) as [p1| |] eqn:E1; cbn [obind] in E; try discriminate.
    apply (IH p1 E). exact (apply_call_Quality c p p1 E1 Hq).
Qed.

(** X9: along any chain of calls started from [NewProcessor] the quality
    stays in [1, 100]; so whatever format the chain is then encoded to, a
    JPEG codec is given a quality in that range. *)
Theorem X9_chain_quality_in_range cs img p :
  chain cs (NewProcessor img) = Ok p ->
  1 <= Quality p <= 100 /\
  forall tag q, select_codec p tag = Some (jpeg_Encode q) -> 1 <= q <= 100.
Proof.
  intros E.
  assert (Hq : 1 <= Quality p <= 100) by (apply (chain_Quality cs _ p E); simpl; lia).
  split; [exact Hq|]. intros tag q. unfold select_codec.
  repeat match goal with
  | |- context [String.eqb tag ?s] => destruct (String.eqb tag s)
  end; simpl; try discriminate; intros [= <-]; exact Hq.
Qed.

(** X13: for a processor with a target format set and a destination that
    can be created, [Save] leaves in the file exactly the bytes [Encode]
    wrote for that format and ends as [Encode] ended -- also when the codec
    failed after writing some bytes, which then stay in the file -- whereas
    [ToBytes("")] returns those bytes only when [Encode] succeeded, and
    otherwise its error and no byte. *)
Theorem X13_Save_and_ToBytes p path fs fs1 :
  TargetFormat p <> ""%string -> os_Create fs path = inr fs1 ->
  let written := fst (Encode p [] (TargetFormat p)) in
  let r := snd (Encode p [] (TargetFormat p)) in
  Save p path fs = (<[path := File written]> fs, r) /\
  ToBytes p "" = match r with
                 | Ok _ => Ok written
                 | Err e => Err e
                 | Panic pn => Panic pn
                 end.
Proof.
  intros Hne Hc written r.
  assert (Esf : Save_format p path = TargetFormat p).
  { unfold Save_format. destruct (String.eqb_spec (TargetFormat p) ""); [contradiction|reflexivity]. }
  split.
  - unfold Save. rewrite Hc, Esf. unfold written, r.
    destruct (Encode p [] (TargetFormat p)) as [buf res]. cbn [fst snd].
    apply os_Create_inr in Hc as ->. now rewrite insert_insert_eq.
  - unfold ToBytes. simpl String.eqb. cbv iota.
    destruct (String.eqb_spec (TargetFormat p) "") as [|_]; [contradiction|].
    unfold written, r. destruct (Encode p [] (TargetFormat p)) as [buf [[]|e|pn]]; reflexivity.
Qed.

End Quality.

Lemma X9_chain_quality_in_range_witness :
  let p := SetQuality 500 (ToJPEG (NewProcessor (Some sample3x2))) in
  1 <= Quality p <= 100 /\
  forall tag q, select_codec p tag = Some (jpeg_Encode q) -> 1 <= q <= 100.
Proof.
  exact (@X9_chain_quality_in_range plain_libs [CToJPEG; CSetQuality 500] (Some sample3x2)
           (SetQuality 500 (ToJPEG (NewProcessor (Some sample3x2)))) eq_refl).
Defined.

Lemma X13_Save_and_ToBytes_witness :
  @Save plain_libs (ToPNG (NewProcessor (Some sample3x2))) "a.jpg" ∅
    = (<["a.jpg"%string := File [2]]> ∅, Ok tt) /\
  @ToBytes plain_libs (ToPNG (NewProcessor (Some sample3x2))) "" = Ok [2].
Proof.
  exact (@X13_Save_and_ToBytes plain_libs (ToPNG (NewProcessor (Some sample3x2)))
           "a.jpg" ∅ (<["a.jpg"%string := File []]> ∅) ltac:(discriminate) eq_refl).
Defined.

(** ** Format tags and file extensions *)

Lemma substring_all s : substring 0 (String.length s) s = s.
Proof. induction s as [|c s IH]; simpl; [reflexivity|]. now rewrite IH. Qed.

Lemma string_map_app f a b :
  string_map f (a ++ b)%string = (string_map f a ++ string_map f b)%string.
Proof. induction a as [|c a IH]; simpl; [reflexivity|]. now rewrite IH. Qed.

Lemma string_forall_app f a b :
  string_forall f (a ++ b)%string = string_forall f a && string_forall f b.
Proof. induction a as [|c a IH]; simpl; [reflexivity|]. now rewrite IH, andb_assoc. Qed.

Lemma list_ascii_of_string_app a b :
  list_ascii_of_string (a ++ b)%string = list_ascii_of_string a ++ list_ascii_of_string b.
Proof. induction a as [|c a IH]; simpl; [reflexivity|]. now rewrite IH. Qed.

Lemma string_forall_Forall f s :
  string_forall f s = true -> Forall (fun c => f c = true) (list_ascii_of_string s).
Proof.
  induction s as [|c s IH]; simpl; [constructor|].
  intros [Hc Hs]%andb_true_iff. constructor; auto.
Qed.

(** lower-casing does not create a dot *)
Lemma lower_ascii_dot c : lower_ascii c = "."%char -> c = "."%char.
Proof.
  destruct c as [[] [] [] [] [] [] [] []]; vm_compute; intros E; try reflexivity; discriminate E.
Qed.

Lemma prefix_dot c s :
  String.prefix "." (String c s) = if ascii_dec "." c then true else false.
Proof. cbn -[ascii_dec]. destruct (ascii_dec "." c); [now destruct s|reflexivity]. Qed.

Lemma TrimPrefix_dot s : TrimPrefix (String "." s) "." = s.
Proof.
  unfold TrimPrefix. rewrite prefix_dot. destruct (ascii_dec "." "."); [|congruence].
  cbn [String.length Nat.sub substring]. rewrite Nat.sub_0_r. apply substring_all.
Qed.

Lemma TrimPrefix_no_dot s : HasPrefix s "." = false -> TrimPrefix s "." = s.
Proof. unfold HasPrefix, TrimPrefix. now intros ->. Qed.

Section Tags.

Context `{libs : ExtLibs}.

Lemma ToLower_ascii s : ascii_string s = true -> ToLower s = string_map lower_ascii s.
Proof. unfold ToLower, ascii_string. now intros ->. Qed.

(** a leading dot is dropped, once, and the rest lower-cased *)
Lemma normalize_dot e :
  ascii_string e = true -> normalize (String "." e) = string_map lower_ascii e.
Proof.
  intros He. unfold normalize. rewrite ToLower_ascii by (unfold ascii_string; simpl; exact He).
  simpl string_map. change (lower_ascii ".") with "."%char. apply TrimPrefix_dot.
Qed.

Lemma normalize_no_dot f :
  ascii_string f = true -> HasPrefix f "." = false -> normalize f = string_map lower_ascii f.
Proof.
  intros Hf Hd. unfold normalize. rewrite ToLower_ascii by exact Hf.
  apply TrimPrefix_no_dot. destruct f as [|c f]; [reflexivity|].
  unfold HasPrefix in *. cbn [string_map]. rewrite prefix_dot in *.
  destruct (ascii_dec "." c) as [<-|Hc]; [discriminate|].
  destruct (ascii_dec "." (lower_ascii c)) as [E|_]; [|reflexivity].
  exfalso. apply Hc. symmetry. now apply lower_ascii_dot.
Qed.

(** X10: the format tag of [Encode] is read without regard to ASCII letter
    case, and with or without one leading dot: two non-empty ASCII tags that
    lower-case to the same string are encoded alike ("PNG" as "png"), and a
    non-empty ASCII tag is encoded as the same tag with a dot before it
    (".jpg" as "jpg"). *)
Theorem X10_Encode_tag_case_and_dot p w :
  (forall f g, ascii_string f = true -> ascii_string g = true ->
     f <> ""%string -> g <> ""%string ->
     string_map lower_ascii f = string_map lower_ascii g ->
     Encode p w f = Encode p w g) /\
  (forall f, ascii_string f = true -> f <> ""%string -> HasPrefix f "." = false ->
     Encode p w (String "." f) = Encode p w f).
Proof.
  split.
  - intros f g Hf Hg Hfe Hge Hl. unfold Encode. cbv zeta.
    destruct (String.eqb_spec f ""); [contradiction|].
    destruct (String.eqb_spec g ""); [contradiction|].
    unfold normalize. now rewrite !ToLower_ascii, Hl by assumption.
  - intros f Hf Hfe Hd. unfold Encode. cbv zeta.
    destruct (String.eqb_spec f ""); [contradiction|].
    change (String "." f =? "")%string with false. cbv iota.
    now rewrite normalize_dot, normalize_no_dot by assumption.
Qed.

End Tags.

Lemma X10_Encode_tag_case_and_dot_witness :
  @Encode plain_libs (NewProcessor (Some sample3x2)) [] "PnG"
    = @Encode plain_libs (NewProcessor (Some sample3x2)) [] "png" /\
  @Encode plain_libs (NewProcessor (Some sample3x2)) [] ".jpg"
    = @Encode plain_libs (NewProcessor (Some sample3x2)) [] "jpg".
Proof.
  destruct (@X10_Encode_tag_case_and_dot plain_libs (NewProcessor (Some sample3x2)) [])
    as [Hcase Hdot].
  split.
  - apply Hcase; [reflexivity|reflexivity|discriminate|discriminate|reflexivity].
  - apply (Hdot "jpg"%string); [reflexivity|discriminate|reflexivity].
Defined.

(** ** [Save] and the extension of the path *)

Lemma Ext_scan_to_dot l r acc :
  Forall (fun c => negb (Ascii.eqb c "/") && negb (Ascii.eqb c ".") = true) l ->
  Ext_scan (l ++ "."%char :: r) acc = "."%char :: rev l ++ acc.
Proof.
  revert acc. induction l as [|c l IH]; intros acc Hl; simpl; [reflexivity|].
  inversion Hl as [|? ? Hc Hl']; subst.
  apply andb_true_iff in Hc as [H1%negb_true_iff H2%negb_true_iff].
  rewrite H1, H2, (IH _ Hl'). now rewrite <- app_assoc.
Qed.

Lemma Ext_scan_to_slash l r acc :
  Forall (fun c => negb (Ascii.eqb c "/") && negb (Ascii.eqb c ".") = true) l ->
  Ext_scan (l ++ "/"%char :: r) acc = [] /\ Ext_scan l acc = [].
Proof.
  revert acc. induction l as [|c l IH]; intros acc Hl; simpl; [split; reflexivity|].
  inversion Hl as [|? ? Hc Hl']; subst.
  apply andb_true_iff in Hc as [H1%negb_true_iff H2%negb_true_iff].
  rewrite H1, H2. apply (IH _ Hl').
Qed.

Lemma plain_ext_rev e :
  plain_ext e = true ->
  Forall (fun c => negb (Ascii.eqb c "/") && negb (Ascii.eqb c ".") = true)
         (rev (list_ascii_of_string e)).
Proof.
  intros He. apply Forall_forall. intros c Hc%list_elem_of_In%in_rev.
  pose proof (string_forall_Forall _ e He) as HF. rewrite Forall_forall in HF.
  apply HF. now apply list_elem_of_In.
Qed.

(** [filepath.Ext] of a path that ends in a dot and a run free of dots and
    slashes *)
Lemma Ext_of_extension base e :
  plain_ext e = true -> Ext (base ++ String "." e)%string = String "." e.
Proof.
  intros He. unfold Ext. rewrite list_ascii_of_string_app. simpl list_ascii_of_string.
  rewrite rev_app_distr. simpl rev. rewrite <- app_assoc. simpl app.
  rewrite (Ext_scan_to_dot _ _ _ (plain_ext_rev e He)).
  rewrite rev_involutive, app_nil_r. simpl. now rewrite string_of_list_ascii_of_string.
Qed.

(** [filepath.Ext] of a path whose last element has no dot *)
Lemma Ext_of_no_extension name :
  plain_ext name = true ->
  Ext name = ""%string /\ forall dir, Ext (dir ++ String "/" name)%string = ""%string.
Proof.
  intros Hn. split.
  - unfold Ext.
    now rewrite (proj2 (Ext_scan_to_slash _ [] [] (plain_ext_rev name Hn))).
  - intros dir. unfold Ext. rewrite list_ascii_of_string_app. simpl list_ascii_of_string.
    rewrite rev_app_distr. simpl rev. rewrite <- app_assoc. simpl app.
    now rewrite (proj1 (Ext_scan_to_slash _ _ [] (plain_ext_rev name Hn))).
Qed.

Lemma split_path_separator dir : split_path (dir ++ "/") = (Some dir, ""%string).
Proof. induction dir as [|c dir IH]; [reflexivity|]. simpl. now rewrite IH. Qed.

(** [os.Create] makes no file at the empty path or at one that ends in a
    separator *)
Lemma os_Create_no_name fs path :
  path = ""%string \/ (exists dir, path = (dir ++ "/")%string) ->
  exists cause, os_Create fs path = inl cause.
Proof.
  intros [-> | [dir ->]]; unfold os_Create.
  - simpl. eauto.
  - rewrite split_path_separator.
    destruct (parent_node fs (Some dir)) as [[content|]|]; eauto.
    destruct (_ =? _)%string; eauto.
Qed.

Section SaveByExtension.

Context `{libs : ExtLibs}.

(** X11: with no target format set, [Save] picks the codec from the
    extension of the path, read without regard to ASCII letter case: for a
    path that ends in a dot and an ASCII run [e] free of dots and slashes,
    the codec is the one the switch selects for [e] lower-cased, and when
    there is none [Save] fails with "unsupported format" naming that tag and
    leaves the file empty. *)
Theorem X11_Save_by_extension p base e fs :
  TargetFormat p = ""%string -> plain_ext e = true -> ascii_string e = true ->
  let path := (base ++ String "." e)%string in
  let tag := string_map lower_ascii e in
  Save_format p path = String "." e /\
  Save p path fs =
  match os_Create fs path with
  | inl cause => (fs, Err (ErrCreateFile cause))
  | inr fs1 =>
      match select_codec p tag with
      | Some call => (<[path := File (fst (codec_Encode call (Img p)))]> fs1,
                      snd (codec_Encode call (Img p)))
      | None => (<[path := File []]> fs1, Err (ErrUnsupportedFormat tag))
      end
  end.
Proof.
  intros Ht He Ha path tag.
  assert (Esf : Save_format p path = String "." e).
  { unfold Save_format. rewrite Ht. simpl. apply Ext_of_extension, He. }
  split; [exact Esf|]. unfold Save.
  destruct (os_Create fs path) as [cause|fs1]; [reflexivity|].
  rewrite Esf. unfold Encode. cbv zeta.
  change (String "." e =? "")%string with false. cbv iota.
  rewrite (normalize_dot e Ha). fold tag.
  destruct (select_codec p tag) as [call|]; [|reflexivity].
  now destruct (codec_Encode call (Img p)).
Qed.

(** X12: with no target format set, [Save] to a path whose last element has
    no dot cannot pick a codec: once the file is created it fails with
    "unsupported format: " (the empty tag) and leaves the file empty, also
    when a directory of the path has a dot in its name.  When the last
    element is empty -- the empty path, or one that ends in a separator --
    no file is created and [Save] fails with "failed to create file". *)
Theorem X12_Save_without_extension p name fs :
  TargetFormat p = ""%string -> plain_ext name = true ->
  forall path, path = name \/ (exists dir, path = (dir ++ String "/" name)%string) ->
  Save_format p path = ""%string /\
  match os_Create fs path with
  | inl cause => Save p path fs = (fs, Err (ErrCreateFile cause))
  | inr fs1 => Save p path fs = (<[path := File []]> fs1, Err (ErrUnsupportedFormat ""))
  end /\
  (name = ""%string ->
   exists cause, os_Create fs path = inl cause /\
                 Save p path fs = (fs, Err (ErrCreateFile cause))).
Proof.
  intros Ht Hn path Hpath.
  destruct (Ext_of_no_extension name Hn) as [E1 E2].
  assert (Esf : Save_format p path = ""%string).
  { unfold Save_format. rewrite Ht. simpl.
    destruct Hpath as [-> | [dir ->]]; [exact E1|apply E2]. }
  split; [exact Esf|]. split.
  - unfold Save.
    destruct (os_Create fs path) as [cause|fs1]; [reflexivity|].
    rewrite Esf. unfold Encode. simpl. rewrite Ht. reflexivity.
  - intros ->. destruct (os_Create_no_name fs path) as [cause Hc].
    { destruct Hpath as [-> | [dir ->]]; [now left|right; now exists dir]. }
    exists cause. split; [exact Hc|]. unfold Save. now rewrite Hc.
Qed.

End SaveByExtension.

Lemma X11_Save_by_extension_witness :
  Save_format (NewProcessor (Some sample3x2)) "shots/photo.PNG" = ".PNG"%string /\
  @Save plain_libs (NewProcessor (Some sample3x2)) "shots/photo.PNG" {["shots"%string := Dir]}
  = (<["shots/photo.PNG"%string := File [2]]> {["shots"%string := Dir]}, Ok tt).
Proof.
  generalize (@X11_Save_by_extension plain_libs (NewProcessor (Some sample3x2))
                "shots/photo" "PNG" {["shots"%string := Dir]} eq_refl eq_refl eq_refl).
  vm_compute. exact (fun H => H).
Defined.

Lemma X12_Save_without_extension_witness :
  (Save_format (NewProcessor (Some sample3x2)) "v1.2/output" = ""%string /\
   @Save plain_libs (NewProcessor (Some sample3x2)) "v1.2/output" {["v1.2"%string := Dir]}
   = (<["v1.2/output"%string := File []]> {["v1.2"%string := Dir]},
      Err (ErrUnsupportedFormat ""))) /\
  (exists cause,
     @Save plain_libs (NewProcessor (Some sample3x2)) "v1.2/" {["v1.2"%string := Dir]}
     = ({["v1.2"%string := Dir]}, Err (ErrCreateFile cause))).
Proof.
  split.
  - destruct (@X12_Save_without_extension plain_libs (NewProcessor (Some sample3x2))
                "output" {["v1.2"%string := Dir]} eq_refl eq_refl "v1.2/output"%string
                (or_intror (ex_intro _ "v1.2"%string eq_refl))) as (Hf & Hs & _).
    split; [exact Hf|]. revert Hs. vm_compute. exact (fun H => H).
  - destruct (@X12_Save_without_extension plain_libs (NewProcessor (Some sample3x2))
                ""%string {["v1.2"%string := Dir]} eq_refl eq_refl "v1.2/"%string
                (or_intror (ex_intro _ "v1.2"%string eq_refl))) as (_ & _ & Hno).
    destruct (Hno eq_refl) as (cause & _ & Hs). exists cause. exact Hs.
Defined.

(** ** The SVG rasteriser, further *)

Section SVGMore.

Context `{libs : ExtLibs}.

(** X14: [decodeSVG] fails exactly when the parser does, with "failed to
    read SVG"; an image it returns is never empty: its bounds start at
    (0, 0) and its width and height are both positive, either the two
    integers read from the view-box or 512 by 512. *)
Theorem X14_decodeSVG_canvas ioReader :
  (forall cause, oksvg_ReadIconStream ioReader = inl cause ->
     decodeSVG ioReader = Err (ErrReadSVG cause)) /\
  (forall e, decodeSVG ioReader = Err e ->
     exists cause, e = ErrReadSVG cause /\ oksvg_ReadIconStream ioReader = inl cause) /\
  (forall img, decodeSVG ioReader = Ok img ->
     exists icon w h, oksvg_ReadIconStream ioReader = inr icon /\
       image.Bounds img = grid w h /\ 0 < w /\ 0 < h /\
       ((w, h) = (512, 512) \/
        (w, h) = (float64_to_int (VW (icon_ViewBox icon)),
                  float64_to_int (VH (icon_ViewBox icon))))).
Proof.
  unfold decodeSVG. destruct (oksvg_ReadIconStream ioReader) as [cause|icon].
  - split; [now intros ? [= <-]|]. split; [|discriminate].
    intros e [= <-]. eauto.
  - split; [discriminate|].
    set (w0 := float64_to_int (VW (icon_ViewBox icon))).
    set (h0 := float64_to_int (VH (icon_ViewBox icon))).
    assert (Hwh : exists w h,
              (if (w0 <=? 0) || (h0 <=? 0) then (512, 512) else (w0, h0)) = (w, h) /\
              0 < w /\ 0 < h /\ ((w, h) = (512, 512) \/ (w, h) = (w0, h0))).
    { destruct ((w0 <=? 0) || (h0 <=? 0)) eqn:E.
      - exists 512, 512. repeat split; auto; lia.
      - apply orb_false_iff in E as [E1%Z.leb_gt E2%Z.leb_gt].
        exists w0, h0. repeat split; auto. }
    destruct Hwh as (w & h & -> & Hw & Hh & Hor).
    rewrite (Rect_grid w h) by lia.
    destruct (NewRGBA_cases (grid w h)) as [[m Em] | Em]; rewrite Em; cbn [obind].
    + split; [discriminate|]. intros img [= <-]. exists icon, w, h.
      split; [reflexivity|]. split; [|auto]. simpl. apply (NewRGBA_Ok_Rect _ _ Em).
    + split; discriminate.
Qed.

(** X15: a view-box too large for a pixel buffer is not an error: when the
    two integers read from it are positive and four times their product
    exceeds the largest [int], [decodeSVG] panics in [image.NewRGBA]. *)
Theorem X15_decodeSVG_huge_panics ioReader icon :
  oksvg_ReadIconStream ioReader = inr icon ->
  let w := float64_to_int (VW (icon_ViewBox icon)) in
  let h := float64_to_int (VH (icon_ViewBox icon)) in
  0 < w <= max_int -> 0 < h <= max_int -> max_int < 4 * w * h ->
  decodeSVG ioReader = Panic HugeDimensions.
Proof.
  intros Hread w h Hw Hh Hbig. unfold decodeSVG. rewrite Hread. fold w h.
  assert (E : (w <=? 0) || (h <=? 0) = false).
  { apply orb_false_iff. rewrite !Z.leb_gt. lia. }
  rewrite E, (Rect_grid w h) by lia.
  rewrite NewRGBA_refused; [reflexivity|].
  rewrite Dx_exact, Dy_exact by (unfold grid; simpl; lia).
  unfold grid; simpl. rewrite !Z.sub_0_r.
  right; right; right. unfold maxAlloc, max_int in *. lia.
Qed.

End SVGMore.

Lemma sample_svg_decodes : exists img, @decodeSVG plain_libs [] = Ok img.
Proof. eexists. reflexivity. Defined.

Lemma X14_decodeSVG_canvas_witness :
  exists img icon w h, @decodeSVG plain_libs [] = Ok img /\
    @oksvg_ReadIconStream plain_libs [] = inr icon /\
    image.Bounds img = grid w h /\ 0 < w /\ 0 < h /\
    ((w, h) = (512, 512) \/
     (w, h) = (@float64_to_int plain_libs (VW (icon_ViewBox icon)),
               @float64_to_int plain_libs (VH (icon_ViewBox icon)))).
Proof.
  destruct sample_svg_decodes as (img & E).
  destruct (proj2 (proj2 (@X14_decodeSVG_canvas plain_libs [])) img E)
    as (icon & w & h & H).
  exists img, icon, w, h. split; [exact E|exact H].
Defined.

Lemma X15_decodeSVG_huge_panics_witness :
  @decodeSVG huge_svg_libs [] = Panic HugeDimensions.
Proof.
  apply (@X15_decodeSVG_huge_panics huge_svg_libs []
           (mkSvgIcon (mkViewBox 0 0 3000000000 3000000000) []) eq_refl).
  - vm_compute. split; [reflexivity|discriminate].
  - vm_compute. split; [reflexivity|discriminate].
  - vm_compute. reflexivity.
Defined.

(** ** The loader *)

Lemma string_length_app a b :
  String.length (a ++ b)%string = (String.length a + String.length b)%nat.
Proof. induction a as [|c a IH]; simpl; [reflexivity|]. now rewrite IH. Qed.

Lemma string_map_length f s : String.length (string_map f s) = String.length s.
Proof. induction s as [|c s IH]; simpl; [reflexivity|]. now rewrite IH. Qed.

Lemma substring_skip a b : substring (String.length a) (String.length b) (a ++ b)%string = b.
Proof. induction a as [|c a IH]; simpl; [apply substring_all|exact IH]. Qed.

Lemma HasSuffix_app a b : HasSuffix (a ++ b)%string b = true.
Proof.
  unfold HasSuffix. rewrite string_length_app.
  replace (String.length a + String.length b - String.length b)%nat
    with (String.length a) by lia.
  rewrite substring_skip, String.eqb_refl, andb_true_r.
  apply Nat.leb_le. lia.
Qed.

Section LoaderProps.

Context `{libs : ExtLibs} `{llibs : LoadLibs}.

Lemma Load_missing net fs path :
  HasPrefix path "http://" = false -> HasPrefix path "https://" = false ->
  fs !! path = None ->
  Load net fs path
  = LoadErr (ErrOpenFile ("open " ++ path ++ ": no such file or directory")%string).
Proof.
  intros H1 H2 Hno. unfold Load. rewrite H1, H2. cbn [orb].
  unfold loadLocal, os_Open. now rewrite Hno.
Qed.

Lemma Load_status net fs url code body :
  HasPrefix url "http://" = true \/ HasPrefix url "https://" = true ->
  net url = inr (code, body) -> code <> 200 ->
  Load net fs url = LoadErr (ErrStatusCode code).
Proof.
  intros Hurl Hn Hne.
  assert (E : HasPrefix url "http://" || HasPrefix url "https://" = true)
    by (apply orb_true_iff; exact Hurl).
  unfold Load. rewrite E. unfold loadRemote. rewrite Hn.
  destruct (Z.eqb_spec code 200); [contradiction|reflexivity].
Qed.

(** X16: a path that starts with neither "http://" nor "https://" is loaded
    from the file system alone, whatever the network would answer; when no
    file is at the path, [Load] fails with "failed to open file". *)
Theorem X16_Load_local net fs path :
  HasPrefix path "http://" = false -> HasPrefix path "https://" = false ->
  (forall net', Load net' fs path = Load net fs path) /\
  (fs !! path = None ->
   Load net fs path
   = LoadErr (ErrOpenFile ("open " ++ path ++ ": no such file or directory")%string)).
Proof.
  intros H1 H2. unfold Load. rewrite H1, H2. cbn [orb]. split; [reflexivity|].
  intros Hno. rewrite <- (Load_missing net fs path H1 H2 Hno).
  unfold Load. now rewrite H1, H2.
Qed.

(** X17: a path that starts with "http://" or "https://" is loaded from the
    network alone, whatever the file system holds; a transport error fails
    with "failed to download image", and any status code other than 200
    fails with that code before the body is looked at. *)
Theorem X17_Load_remote net fs url :
  HasPrefix url "http://" = true \/ HasPrefix url "https://" = true ->
  (forall fs', Load net fs' url = Load net fs url) /\
  (forall cause, net url = inl cause -> Load net fs url = LoadErr (ErrDownload cause)) /\
  (forall code body, net url = inr (code, body) -> code <> 200 ->
     Load net fs url = LoadErr (ErrStatusCode code)).
Proof.
  intros Hurl.
  assert (E : HasPrefix url "http://" || HasPrefix url "https://" = true)
    by (apply orb_true_iff; exact Hurl).
  unfold Load. rewrite E. split; [reflexivity|]. unfold loadRemote. split.
  - now intros cause ->.
  - intros code body -> Hne. destruct (Z.eqb_spec code 200); [contradiction|reflexivity].
Qed.

Lemma decode_by_suffix_svg name ext r :
  ascii_string (name ++ ext)%string = true -> string_map lower_ascii ext = ".svg"%string ->
  decode_by_suffix (name ++ ext)%string r = loaded_of (decodeSVG_from r).
Proof.
  intros Ha He. unfold decode_by_suffix.
  rewrite (ToLower_ascii _ Ha), string_map_app, He, HasSuffix_app. reflexivity.
Qed.

(** X18: whether a source is an SVG is decided by its name alone, without
    regard to ASCII letter case: a local file or a URL answered with status
    200 whose ASCII name ends in ".svg", ".SVG", ".Svg" ... goes to
    [decodeSVG], and [image.Decode] is not tried, whatever the bytes are. *)
Theorem X18_svg_by_suffix net fs name ext :
  ascii_string (name ++ ext)%string = true -> string_map lower_ascii ext = ".svg"%string ->
  let path := (name ++ ext)%string in
  (forall content,
     HasPrefix path "http://" = false -> HasPrefix path "https://" = false ->
     fs !! path = Some (File content) ->
     Load net fs path = loaded_of (decodeSVG content)) /\
  (forall body,
     HasPrefix path "http://" = true \/ HasPrefix path "https://" = true ->
     net path = inr (200, body) ->
     Load net fs path = loaded_of (decodeSVG_from body)).
Proof.
  intros Ha He path. split.
  - intros content H1 H2 Hf. unfold Load. rewrite H1, H2. cbn [orb].
    unfold loadLocal, os_Open. rewrite Hf. unfold path.
    now rewrite (decode_by_suffix_svg name ext _ Ha He).
  - intros body Hurl Hn.
    assert (E : HasPrefix path "http://" || HasPrefix path "https://" = true)
      by (apply orb_true_iff; exact Hurl).
    unfold Load. rewrite E. unfold loadRemote. rewrite Hn. cbn [Z.eqb Pos.eqb negb].
    unfold path. now rewrite (decode_by_suffix_svg name ext _ Ha He).
Qed.

(** ** [Convert] *)

(** X19: when the source cannot be loaded [Convert] returns "load failed"
    and has not touched the file system: the destination is neither created
    nor truncated.  So it is for a local source that does not exist and for
    a URL answered with a status other than 200. *)
Theorem X19_Convert_load_failure net src dst fs :
  (forall e, Load net fs src = LoadErr e -> Convert net src dst fs = (fs, ErrLoadFailed e)) /\
  (HasPrefix src "http://" = false -> HasPrefix src "https://" = false ->
   fs !! src = None ->
   Convert net src dst fs
   = (fs, ErrLoadFailed
            (ErrOpenFile ("open " ++ src ++ ": no such file or directory")%string))) /\
  (forall code body,
     HasPrefix src "http://" = true \/ HasPrefix src "https://" = true ->
     net src = inr (code, body) -> code <> 200 ->
     Convert net src dst fs = (fs, ErrLoadFailed (ErrStatusCode code))).
Proof.
  assert (Hgen : forall e, Load net fs src = LoadErr e ->
                           Convert net src dst fs = (fs, ErrLoadFailed e)).
  { intros e He. unfold Convert. now rewrite He. }
  split; [exact Hgen|]. split.
  - intros H1 H2 Hno. apply Hgen. now apply Load_missing.
  - intros code body Hurl Hn Hne. apply Hgen. now apply (Load_status net fs src code body).
Qed.

(** X20: when the source loads, [Convert] is [Save] on a fresh processor:
    the destination holds what the codec chosen by its extension writes, and
    that codec is run with the defaults of [NewProcessor] -- JPEG at quality
    90, PNG at the best compression. *)
Theorem X20_Convert_saves_with_defaults net src dst fs img :
  Load net fs src = LoadOk img ->
  Convert net src dst fs
  = (fst (Save (NewProcessor (Some img)) dst fs),
     Saved (snd (Save (NewProcessor (Some img)) dst fs))) /\
  forall fs1 call,
    os_Create fs dst = inr fs1 ->
    select_codec (NewProcessor (Some img)) (normalize (Ext dst)) = Some call ->
    Convert net src dst fs
    = (<[dst := File (fst (codec_Encode call (Some img)))]> fs,
       Saved (snd (codec_Encode call (Some img)))) /\
    (call = jpeg_Encode 90 \/ call = png_Encode BestCompression \/
     call = gif_Encode \/ call = bmp_Encode \/ call = tiff_Encode).
Proof.
  intros Hl.
  assert (E1 : Convert net src dst fs
               = (fst (Save (NewProcessor (Some img)) dst fs),
                  Saved (snd (Save (NewProcessor (Some img)) dst fs)))).
  { unfold Convert. rewrite Hl. now destruct (Save (NewProcessor (Some img)) dst fs). }
  split; [exact E1|]. intros fs1 call Hc Hsel. split.
  - rewrite E1. unfold Save. rewrite Hc.
    rewrite (Encode_supported (NewProcessor (Some img)) [] _ call)
      by (rewrite Encode_requested_Save; exact Hsel).
    cbn [fst snd app Img NewProcessor].
    apply os_Create_inr in Hc as ->. now rewrite insert_insert_eq.
  - revert Hsel. unfold select_codec. cbn [Quality NewProcessor].
    repeat match goal with
    | |- context [String.eqb ?t ?s] => destruct (String.eqb t s)
    end; cbn; intros [= <-]; auto.
Qed.

End LoaderProps.

Lemma X16_Load_local_witness :
  (forall net', @Load plain_libs plain_load_libs net' ∅ "in.png"
                = @Load plain_libs plain_load_libs no_net ∅ "in.png") /\
  @Load plain_libs plain_load_libs no_net ∅ "in.png"
  = LoadErr (ErrOpenFile ("open " ++ "in.png" ++ ": no such file or directory")%string).
Proof.
  destruct (@X16_Load_local plain_libs plain_load_libs no_net ∅ "in.png" eq_refl eq_refl)
    as [Hnet Hmiss].
  split; [exact Hnet|]. apply Hmiss. reflexivity.
Defined.

Lemma X17_Load_remote_witness :
  (forall fs', @Load plain_libs plain_load_libs net_404 fs' "https://host/a.png"
               = @Load plain_libs plain_load_libs net_404 ∅ "https://host/a.png") /\
  @Load plain_libs plain_load_libs net_404 ∅ "https://host/a.png"
  = LoadErr (ErrStatusCode 404).
Proof.
  destruct (@X17_Load_remote plain_libs plain_load_libs net_404 ∅ "https://host/a.png"
              (or_intror eq_refl)) as (Hfs & _ & Hstatus).
  split; [exact Hfs|]. apply (Hstatus 404 (ReadOf [])); [reflexivity|discriminate].
Defined.

Lemma X18_svg_by_suffix_witness :
  @Load plain_libs plain_load_libs no_net {[("logo" ++ ".SVG")%string := File [1; 2]]}
        ("logo" ++ ".SVG")
  = @loaded_of (@decodeSVG plain_libs [1; 2]).
Proof.
  apply (proj1 (@X18_svg_by_suffix plain_libs plain_load_libs no_net
                  {[("logo" ++ ".SVG")%string := File [1; 2]]} "logo" ".SVG"
                  eq_refl eq_refl) [1; 2]).
  - reflexivity.
  - reflexivity.
  - reflexivity.
Defined.

Lemma X19_Convert_load_failure_witness :
  @Convert plain_libs plain_load_libs no_net "missing.png" "out.jpg"
           {["out.jpg"%string := File [9; 9]]}
  = ({["out.jpg"%string := File [9; 9]]},
     ErrLoadFailed
       (ErrOpenFile ("open " ++ "missing.png" ++ ": no such file or directory")%string)).
Proof.
  apply (proj1 (proj2 (@X19_Convert_load_failure plain_libs plain_load_libs no_net
                         "missing.png" "out.jpg" {["out.jpg"%string := File [9; 9]]}))).
  - reflexivity.
  - reflexivity.
  - reflexivity.
Defined.

Lemma X20_Convert_saves_with_defaults_witness :
  let fs : FS := {["in.png"%string := File [1]]} in
  @Convert plain_libs plain_load_libs no_net "in.png" "out.jpg" fs
  = (<["out.jpg"%string := File (fst (@codec_Encode plain_libs (jpeg_Encode 90)
                                        (Some sample3x2)))]> fs,
     Saved (snd (@codec_Encode plain_libs (jpeg_Encode 90) (Some sample3x2)))) /\
  (jpeg_Encode 90 = jpeg_Encode 90 \/ jpeg_Encode 90 = png_Encode BestCompression \/
   jpeg_Encode 90 = gif_Encode \/ jpeg_Encode 90 = bmp_Encode \/ jpeg_Encode 90 = tiff_Encode).
Proof.
  intros fs.
  apply (proj2 (@X20_Convert_saves_with_defaults plain_libs plain_load_libs no_net
                  "in.png" "out.jpg" fs sample3x2 eq_refl)
           (<["out.jpg"%string := File []]> fs) (jpeg_Encode 90)).
  - reflexivity.
  - reflexivity.
Defined.

(** ** Grey stays grey *)

Lemma to8_gray_of c : to8 (gray_of c) = gray_of c.
Proof.
  unfold gray_of. pose proof (uint8_range (Z.shiftr
    (19595 * color.cR c + 38470 * color.cG c + 7471 * color.cB c + Z.shiftl 1 15) 24)) as Hy.
  fold (color.GrayModel c) in Hy.
  change (color.Gray_RGBA (color.GrayModel c))
    with (color.RGBA_RGBA (color.mkRGBA (color.GrayModel c) (color.GrayModel c)
                                        (color.GrayModel c) 255)).
  apply to8_RGBA. unfold is8; simpl. lia.
Qed.

(** X21: the chain of the package's test, after its resize: on a grid with
    its origin at (0, 0), [Grayscale] then [Rotate180] then [FlipVertical]
    returns a grid with the same bounds whose sample at (x, y) is the grey of
    the source sample at (W-1-x, y) -- the grey image mirrored left to right,
    with no loss after the conversion to grey. *)
Theorem X21_gray_rotate_flip p src W H :
  Img p = Some src -> image.Bounds src = grid W H -> allocatable (grid W H) ->
  exists dst,
    (p1 <~ Grayscale p ;; p2 <~ Rotate180 p1 ;; FlipVertical p2) = Ok (set_Img p dst) /\
    image.Bounds dst = grid W H /\
    forall x y, image.In x y (grid W H) = true ->
      image.At dst x y = gray_of (image.At src (W - 1 - x) y).
Proof.
  intros Himg Hb Halloc.
  assert (Ha : allocatable (image.Bounds src)) by now rewrite Hb.
  destruct (Grayscale_run p src Himg Ha) as (g & Eg & Bg & Pg).
  rewrite Hb in Bg.
  destruct (Rotate180_grid (set_Img p g) g W H eq_refl Bg Halloc) as (r & Er & Br & Pr).
  destruct (FlipVertical_grid (set_Img p r) r W H eq_refl Br Halloc) as (f & Ef & Bf & Pf).
  exists f. split; [|split; [exact Bf|]].
  - rewrite Eg. cbn [obind]. rewrite Er. cbn [obind]. exact Ef.
  - intros x y Hin. apply In_grid in Hin as Hxy.
    rewrite (Pf x y Hin), Pr by (apply In_grid; lia).
    rewrite Pg by (rewrite Hb; apply In_grid; lia).
    rewrite !to8_gray_of. do 2 f_equal. lia.
Qed.

Lemma X21_gray_rotate_flip_witness :
  exists dst,
    (p1 <~ Grayscale (NewProcessor (Some sample3x2)) ;;
     p2 <~ Rotate180 p1 ;; FlipVertical p2)
    = Ok (set_Img (NewProcessor (Some sample3x2)) dst) /\
    image.Bounds dst = grid 3 2 /\
    forall x y, image.In x y (grid 3 2) = true ->
      image.At dst x y = gray_of (image.At sample3x2 (3 - 1 - x) y).
Proof.
  apply (X21_gray_rotate_flip (NewProcessor (Some sample3x2)) sample3x2 3 2).
  - reflexivity.
  - reflexivity.
  - exact sample3x2_allocatable.
Defined.
